(** * The stream-jsonrpc harness of [scripts/test-droid-session-apikey-reuse.py]

    A shallow embedding of the helper functions of the script
    ([write_req], [read_line], [wait_for_response],
    [capture_assistant_text], [stop_proc]) and the properties of them
    that the specification states.

    Conventions of the model.
    - A Python [str] is a list of code points.
    - A decoded JSON document is a [pyval]: [None], [bool], [int], [str],
      [list], and [dict] with string keys.  Floats are not represented.
    - [json.dumps] and [json.loads] are modelled by an encoder and a
      scanner written after [json.encoder] and [json.decoder].
    - The child process is a record [Popen] holding a logical clock, the
      lines the child writes with the instant each one reaches the pipe,
      the instant the child exits, and the text sent to its standard
      input.  Time is counted in ticks of one millisecond; [poll] takes
      one tick, [select] and [wait] block the caller until the awaited
      event or their time-out; nothing else takes time.
    - The child writes whole lines: [select] reports the pipe readable
      when a complete line is there or at end of file, which is reached
      when the child has exited and all it wrote has been read.  The pipe
      and the buffer of the Python stream object above it are one queue.
    - The standard input of the child is a text stream: the model records
      the text written to it, not its encoding into bytes.
    - A computation on a process returns a value, raises an exception
      (every exception of the model is caught by [except Exception]), or
      never returns ([Hang]); the loops of the script are given fuel, one
      unit per iteration, and are shown never to run out of it. *)

From Stdlib Require Import String Ascii.
From Stdlib Require Import ZArith NArith Bool Lia DecimalPos DecimalZ List.
Import ListNotations.

Local Open Scope Z_scope.

(** ** Python strings *)

Abbreviation char := N (only parsing).
Abbreviation str := (list N) (only parsing).

(** An ASCII literal as a [str]. *)
Definition lit (s : string) : str :=
  List.map N_of_ascii (list_ascii_of_string s).

Definition LF : char := 10%N.
Definition QUOTE : char := 34%N.
Definition BACKSLASH : char := 92%N.

Fixpoint str_eqb (a b : str) : bool :=
  match a, b with
  | [], [] => true
  | x :: a', y :: b' => (x =? y)%N && str_eqb a' b'
  | _, _ => false
  end.

(** [str.isspace] for one code point (the table of CPython's
    [_PyUnicode_IsWhitespace]). *)
Definition isspace (c : char) : bool :=
  ((9 <=? c) && (c <=? 13) || (28 <=? c) && (c <=? 32)
   || (c =? 133) || (c =? 160) || (c =? 5760)
   || (8192 <=? c) && (c <=? 8202)
   || (c =? 8232) || (c =? 8233) || (c =? 8239) || (c =? 8287)
   || (c =? 12288))%N.

Fixpoint lstrip (s : str) : str :=
  match s with
  | c :: s' => if isspace c then lstrip s' else s
  | [] => []
  end.

Definition rstrip (s : str) : str := rev (lstrip (rev s)).

(** [s.strip()] *)
Definition strip (s : str) : str := rstrip (lstrip s).

Fixpoint startswith (s pre : str) {struct pre} : bool :=
  match pre, s with
  | [], _ => true
  | c :: pre', d :: s' => (c =? d)%N && startswith s' pre'
  | _ :: _, [] => false
  end.

(** [s.endswith(suf)] *)
Definition endswith (s suf : str) : bool := startswith (rev s) (rev suf).

(** [s.endswith((a, b, ...))] *)
Definition endswith_any (s : str) (sufs : list str) : bool :=
  existsb (endswith s) sufs.

(** [c in s] for a one-character [c]. *)
Definition contains (c : char) (s : str) : bool :=
  existsb (N.eqb c) s.

(** [''.join(parts)] *)
Definition join (parts : list str) : str := concat parts.

(** [sep.join(parts)] *)
Fixpoint join_with (sep : str) (parts : list str) : str :=
  match parts with
  | [] => []
  | [x] => x
  | x :: rest => x ++ sep ++ join_with sep rest
  end.

(** ** Python values that JSON documents decode to *)

#[local] Unset Elimination Schemes.

Inductive pyval : Type :=
| PNone
| PBool (b : bool)
| PInt (z : Z)
| PStr (s : str)
| PList (l : list pyval)
| PDict (items : list (str * pyval)).

#[local] Set Elimination Schemes.

(** A [dict] is the list of its (key, value) pairs in insertion order; as
    with [dict(pairs)], a later pair overrides an earlier one that has the
    same key. *)
Fixpoint lookup (items : list (str * pyval)) (k : str) : option pyval :=
  match items with
  | [] => None
  | (k', v) :: rest =>
      match lookup rest k with
      | Some w => Some w
      | None => if str_eqb k' k then Some v else None
      end
  end.

(** [bool(v)] *)
Definition py_truthy (v : pyval) : bool :=
  match v with
  | PNone => false
  | PBool b => b
  | PInt z => negb (z =? 0)
  | PStr s => match s with [] => false | _ => true end
  | PList l => match l with [] => false | _ => true end
  | PDict d => match d with [] => false | _ => true end
  end.

(** [a or b] *)
Definition py_or (a b : pyval) : pyval := if py_truthy a then a else b.

(** [v == s] for a string [s]. *)
Definition py_eq_str (v : pyval) (s : str) : bool :=
  match v with
  | PStr t => str_eqb t s
  | _ => false
  end.

(** [v is None] *)
Definition py_is_None (v : pyval) : bool :=
  match v with
  | PNone => true
  | _ => false
  end.

Definition digit_char (n : N) : char := (48 + n)%N.

Fixpoint digits (u : Decimal.uint) : str :=
  match u with
  | Decimal.Nil => []
  | Decimal.D0 u => digit_char 0 :: digits u
  | Decimal.D1 u => digit_char 1 :: digits u
  | Decimal.D2 u => digit_char 2 :: digits u
  | Decimal.D3 u => digit_char 3 :: digits u
  | Decimal.D4 u => digit_char 4 :: digits u
  | Decimal.D5 u => digit_char 5 :: digits u
  | Decimal.D6 u => digit_char 6 :: digits u
  | Decimal.D7 u => digit_char 7 :: digits u
  | Decimal.D8 u => digit_char 8 :: digits u
  | Decimal.D9 u => digit_char 9 :: digits u
  end.

(** [str(z)] for an [int]. *)
Definition str_of_int (z : Z) : str :=
  match Z.to_int z with
  | Decimal.Pos u => digits u
  | Decimal.Neg u => 45%N :: digits u
  end.

Definition hexdigit (n : N) : char :=
  (if n <? 10 then 48 + n else 87 + n)%N.

(** [repr(s)] for a [str].  Exact on ASCII; a code point above 126 is
    copied as it is (CPython escapes the non-printable ones among them). *)
Definition repr_char (q : char) (c : char) : str :=
  (if (c =? q) || (c =? 92) then [92; c]
   else if c =? 9 then [92; 116]
   else if c =? 10 then [92; 110]
   else if c =? 13 then [92; 114]
   else if (c <? 32) || (c =? 127)
        then [92; 120; hexdigit (c / 16); hexdigit (c mod 16)]
   else [c])%N.

Definition repr_str (s : str) : str :=
  let q := (if contains 39 s && negb (contains 34 s) then 34 else 39)%N in
  q :: flat_map (repr_char q) s ++ [q].

(** [repr(v)] *)
Fixpoint py_repr (v : pyval) : str :=
  match v with
  | PNone => lit "None"
  | PBool true => lit "True"
  | PBool false => lit "False"
  | PInt z => str_of_int z
  | PStr s => repr_str s
  | PList l => lit "[" ++ join_with (lit ", ") (List.map py_repr l) ++ lit "]"
  | PDict d =>
      lit "{"
      ++ join_with (lit ", ")
           (List.map (fun kv => repr_str (fst kv) ++ lit ": " ++ py_repr (snd kv)) d)
      ++ lit "}"
  end.

(** [str(v)] *)
Definition py_str (v : pyval) : str :=
  match v with
  | PStr s => s
  | _ => py_repr v
  end.

(** ** The JSON codec: [json.dumps(v, ensure_ascii=False)] and [json.loads] *)

(** One character of a string, as [json.encoder.encode_basestring] writes
    it: the quote, the backslash and every control character below 0x20
    are escaped, everything else is copied. *)
Definition escape_char (c : char) : str :=
  (if c =? 34 then [92; 34]
   else if c =? 92 then [92; 92]
   else if c =? 10 then [92; 110]
   else if c =? 13 then [92; 114]
   else if c =? 9 then [92; 116]
   else if c =? 8 then [92; 98]
   else if c =? 12 then [92; 102]
   else if c <? 32
        then [92; 117; 48; 48; hexdigit (c / 16); hexdigit (c mod 16)]
   else [c])%N.

Definition encode_basestring (s : str) : str :=
  QUOTE :: flat_map escape_char s ++ [QUOTE].

(** [json.dumps(v, ensure_ascii=False)]: no indentation, [", "] between
    items and [": "] after a key. *)
Fixpoint dumps (v : pyval) : str :=
  match v with
  | PNone => lit "null"
  | PBool true => lit "true"
  | PBool false => lit "false"
  | PInt z => str_of_int z
  | PStr s => encode_basestring s
  | PList l => lit "[" ++ join_with (lit ", ") (List.map dumps l) ++ lit "]"
  | PDict d =>
      lit "{"
      ++ join_with (lit ", ")
           (List.map (fun kv => encode_basestring (fst kv) ++ lit ": " ++ dumps (snd kv)) d)
      ++ lit "}"
  end.

(** JSON white space: space, tab, line feed, carriage return. *)
Definition is_ws (c : char) : bool :=
  ((c =? 32) || (c =? 9) || (c =? 10) || (c =? 13))%N.

Fixpoint skip_ws (s : str) : str :=
  match s with
  | c :: s' => if is_ws c then skip_ws s' else s
  | [] => []
  end.

Definition isdigit (c : char) : bool := ((48 <=? c) && (c <=? 57))%N.

Definition hexval (c : char) : option N :=
  (if (48 <=? c) && (c <=? 57) then Some (c - 48)
   else if (97 <=? c) && (c <=? 102) then Some (c - 87)
   else if (65 <=? c) && (c <=? 70) then Some (c - 55)
   else None)%N.

Definition hex4 (a b c d : char) : option N :=
  match hexval a, hexval b, hexval c, hexval d with
  | Some x, Some y, Some z, Some w => Some (((x * 16 + y) * 16 + z) * 16 + w)%N
  | _, _, _, _ => None
  end.

Definition is_high_surrogate (n : N) : bool := ((55296 <=? n) && (n <=? 56319))%N.
Definition is_low_surrogate (n : N) : bool := ((56320 <=? n) && (n <=? 57343))%N.
Definition join_surrogates (hi lo : N) : N :=
  (65536 + ((hi - 55296) * 1024 + (lo - 56320)))%N.

(** The character a one-letter escape stands for. *)
Definition unescape (e : char) : option char :=
  (if e =? 34 then Some 34
   else if e =? 92 then Some 92
   else if e =? 47 then Some 47
   else if e =? 98 then Some 8
   else if e =? 102 then Some 12
   else if e =? 110 then Some 10
   else if e =? 114 then Some 13
   else if e =? 116 then Some 9
   else None)%N.

(** [json.decoder.scanstring] in strict mode, started after the opening
    quote: the decoded string (accumulated in reverse in [acc]) and the
    text after the closing quote. *)
Fixpoint scanstring (s : str) (acc : str) : option (str * str) :=
  match s with
  | [] => None
  | c :: s1 =>
      if (c =? 34)%N then Some (rev acc, s1)
      else if (c =? 92)%N then
        match s1 with
        | [] => None
        | e :: s2 =>
            if (e =? 117)%N then
              match s2 with
              | h1 :: h2 :: h3 :: h4 :: s3 =>
                  match hex4 h1 h2 h3 h4 with
                  | None => None
                  | Some n =>
                      if is_high_surrogate n then
                        match s3 with
                        | b :: u :: l1 :: l2 :: l3 :: l4 :: s4 =>
                            if ((b =? 92) && (u =? 117))%N then
                              match hex4 l1 l2 l3 l4 with
                              | None => None
                              | Some m =>
                                  if is_low_surrogate m
                                  then scanstring s4 (join_surrogates n m :: acc)
                                  else scanstring s3 (n :: acc)
                              end
                            else scanstring s3 (n :: acc)
                        | _ => scanstring s3 (n :: acc)
                        end
                      else scanstring s3 (n :: acc)
                  end
              | _ => None
              end
            else
              match unescape e with
              | Some d => scanstring s2 (d :: acc)
              | None => None
              end
        end
      else if (c <? 32)%N then None
      else scanstring s1 (c :: acc)
  end.

Definition digit_of (c : char) (u : Decimal.uint) : Decimal.uint :=
  (if c =? 48 then Decimal.D0 u
   else if c =? 49 then Decimal.D1 u
   else if c =? 50 then Decimal.D2 u
   else if c =? 51 then Decimal.D3 u
   else if c =? 52 then Decimal.D4 u
   else if c =? 53 then Decimal.D5 u
   else if c =? 54 then Decimal.D6 u
   else if c =? 55 then Decimal.D7 u
   else if c =? 56 then Decimal.D8 u
   else Decimal.D9 u)%N.

(** The longest run of decimal digits at the head of [s]. *)
Fixpoint take_digits (s : str) : Decimal.uint * str :=
  match s with
  | c :: s' =>
      if isdigit c
      then let (u, r) := take_digits s' in (digit_of c u, r)
      else (Decimal.Nil, s)
  | [] => (Decimal.Nil, [])
  end.

(** The integer part of a JSON number, [0|[1-9][0-9]*]. *)
Definition scan_uint (s : str) : option (Decimal.uint * str) :=
  match s with
  | c :: s' =>
      if (c =? 48)%N then Some (Decimal.D0 Decimal.Nil, s')
      else if isdigit c then Some (take_digits s)
      else None
  | [] => None
  end.

(** [scan_once], [JSONArray] and [JSONObject] of [json.decoder]; [fuel]
    bounds the number of nested calls.  A float literal, [NaN] and
    [Infinity] have no [pyval]: the scanner gives [None] for them, as for
    malformed text. *)
Fixpoint scan_once (fuel : nat) (s : str) : option (pyval * str) :=
  match fuel with
  | O => None
  | S fuel =>
      match s with
      | [] => None
      | c :: s1 =>
          if (c =? 34)%N then
            match scanstring s1 [] with
            | Some (t, r) => Some (PStr t, r)
            | None => None
            end
          else if (c =? 123)%N then
            match skip_ws s1 with
            | d :: r =>
                if (d =? 125)%N then Some (PDict [], r)
                else parse_members fuel (d :: r) []
            | [] => None
            end
          else if (c =? 91)%N then
            match skip_ws s1 with
            | d :: r =>
                if (d =? 93)%N then Some (PList [], r)
                else parse_elements fuel (d :: r) []
            | [] => None
            end
          else if startswith s (lit "null") then Some (PNone, skipn 4 s)
          else if startswith s (lit "true") then Some (PBool true, skipn 4 s)
          else if startswith s (lit "false") then Some (PBool false, skipn 5 s)
          else if (c =? 45)%N then
            match scan_uint s1 with
            | Some (u, r) => Some (PInt (Z.of_int (Decimal.Neg u)), r)
            | None => None
            end
          else
            match scan_uint s with
            | Some (u, r) => Some (PInt (Z.of_int (Decimal.Pos u)), r)
            | None => None
            end
      end
  end

with parse_elements (fuel : nat) (s : str) (acc : list pyval)
  : option (pyval * str) :=
  match fuel with
  | O => None
  | S fuel =>
      match scan_once fuel s with
      | None => None
      | Some (v, r) =>
          match skip_ws r with
          | c :: r' =>
              if (c =? 93)%N then Some (PList (rev (v :: acc)), r')
              else if (c =? 44)%N
                   then parse_elements fuel (skip_ws r') (v :: acc)
              else None
          | [] => None
          end
      end
  end

with parse_members (fuel : nat) (s : str) (acc : list (str * pyval))
  : option (pyval * str) :=
  match fuel with
  | O => None
  | S fuel =>
      match s with
      | [] => None
      | q :: s1 =>
          if negb (q =? 34)%N then None
          else
            match scanstring s1 [] with
            | None => None
            | Some (k, r) =>
                match skip_ws r with
                | [] => None
                | colon :: r1 =>
                    if negb (colon =? 58)%N then None
                    else
                      match scan_once fuel (skip_ws r1) with
                      | None => None
                      | Some (v, r2) =>
                          match skip_ws r2 with
                          | c :: r3 =>
                              if (c =? 125)%N
                              then Some (PDict (rev ((k, v) :: acc)), r3)
                              else if (c =? 44)%N
                                   then parse_members fuel (skip_ws r3) ((k, v) :: acc)
                              else None
                          | [] => None
                          end
                      end
                end
            end
      end
  end.

(** [json.loads(s)]: [None] stands for the [JSONDecodeError] it raises. *)
Definition json_loads (s : str) : option pyval :=
  if startswith s [65279%N] then None
  else
    match scan_once (S (List.length s)) (skip_ws s) with
    | Some (v, r) =>
        match skip_ws r with
        | [] => Some v
        | _ :: _ => None
        end
    | None => None
    end.

(** ** The child process and its pipes *)

(** A line read from the child, as [json.loads] sees it: either it raises
    on the line (text that is not JSON, a truncated document, an empty
    line), or it returns a value.  The loops of the script use a line in
    no other way. *)
Inductive line : Type :=
| NotJson (raw : str)
| Json (msg : pyval).

Definition loads_line (l : line) : option pyval :=
  match l with
  | NotJson _ => None
  | Json msg => Some msg
  end.

Record Popen : Type := mkPopen {
  now : Z;                      (* [time.time()], in ticks *)
  stdout : list (Z * line);     (* unread lines, each with the instant the child writes it *)
  exit_at : option Z;           (* the instant the child exits, if it does *)
  returncode : Z;               (* the status it exits with *)
  sigterm_delay : option Z;     (* how long after SIGTERM it exits; [None]: it ignores SIGTERM *)
  stdin_closed : bool;
  stdin_buffer : str;           (* written, not yet flushed *)
  stdin_sent : str              (* flushed to the child *)
}.

Definition SECOND : Z := 1000.

Definition set_now (t : Z) (p : Popen) : Popen :=
  mkPopen t (stdout p) (exit_at p) (returncode p) (sigterm_delay p)
          (stdin_closed p) (stdin_buffer p) (stdin_sent p).

Definition set_stdout (l : list (Z * line)) (p : Popen) : Popen :=
  mkPopen (now p) l (exit_at p) (returncode p) (sigterm_delay p)
          (stdin_closed p) (stdin_buffer p) (stdin_sent p).

Definition set_exit_at (e : option Z) (p : Popen) : Popen :=
  mkPopen (now p) (stdout p) e (returncode p) (sigterm_delay p)
          (stdin_closed p) (stdin_buffer p) (stdin_sent p).

Definition set_stdin (closed : bool) (buffer sent : str) (p : Popen) : Popen :=
  mkPopen (now p) (stdout p) (exit_at p) (returncode p) (sigterm_delay p)
          closed buffer sent.

(** Has the child exited by the current instant? *)
Definition exited (p : Popen) : bool :=
  match exit_at p with
  | Some e => e <=? now p
  | None => false
  end.

(** ** Computations on a process: state, exceptions and non-termination *)

Inductive exn : Type :=
| TimeoutError
| AttributeError
| ValueError
| BrokenPipeError
| TimeoutExpired.

Inductive result (A : Type) : Type :=
| Ret (a : A)
| Raise (e : exn)
| Hang.

Arguments Ret {A} a.
Arguments Raise {A} e.
Arguments Hang {A}.

Definition M (A : Type) : Type := Popen -> result A * Popen.

Definition ret {A : Type} (a : A) : M A := fun p => (Ret a, p).

Definition raise {A : Type} (e : exn) : M A := fun p => (Raise e, p).

Definition hang {A : Type} : M A := fun p => (Hang, p).

Definition bind {A B : Type} (m : M A) (k : A -> M B) : M B :=
  fun p =>
    match m p with
    | (Ret a, p') => k a p'
    | (Raise e, p') => (Raise e, p')
    | (Hang, p') => (Hang, p')
    end.

Notation "x <- m ;; k" := (bind m (fun x => k))
  (at level 61, m at next level, right associativity).
Notation "m ;; k" := (bind m (fun _ => k))
  (at level 61, right associativity).

(** [try: body / except Exception: handler] *)
Definition try_except {A : Type} (body handler : M A) : M A :=
  fun p =>
    match body p with
    | (Raise _, p') => handler p'
    | r => r
    end.

(** ** The operations of [subprocess], [select], [time] and [dict] used by the script *)

(** [time.time()] *)
Definition time_time : M Z := fun p => (Ret (now p), p).

(** [p.poll()]: takes one tick; the return code once the child has
    exited, [None] before. *)
Definition poll : M (option Z) :=
  fun p =>
    let p' := set_now (now p + 1) p in
    (Ret (if exited p' then Some (returncode p') else None), p').

(** The instant at which [p.stdout] becomes readable: when its next line
    is written or, with nothing left to read, when the child exits and
    the pipe reaches end of file. *)
Definition readable_at (p : Popen) : option Z :=
  match stdout p with
  | (t, _) :: _ => Some t
  | [] => exit_at p
  end.

(** [select.select([p.stdout], [], [], timeout_s)]: is the returned list
    of readable streams non-empty? *)
Definition select_stdout (timeout_s : Z) : M bool :=
  fun p =>
    if timeout_s <? 0 then (Raise ValueError, p)
    else
      match readable_at p with
      | Some t =>
          if t <=? now p + timeout_s
          then (Ret true, set_now (Z.max (now p) t) p)
          else (Ret false, set_now (now p + timeout_s) p)
      | None => (Ret false, set_now (now p + timeout_s) p)
      end.

(** [p.stdout.readline()]: the next line, or [None] for the empty string
    it returns at end of file; it blocks until one of them is there. *)
Definition readline : M (option line) :=
  fun p =>
    match stdout p with
    | (t, l) :: rest => (Ret (Some l), set_stdout rest (set_now (Z.max (now p) t) p))
    | [] =>
        match exit_at p with
        | Some e => (Ret None, set_now (Z.max (now p) e) p)
        | None => (Hang, p)
        end
    end.

(** [p.stdin.write(text)] *)
Definition stdin_write (text : str) : M unit :=
  fun p =>
    if stdin_closed p then (Raise ValueError, p)
    else (Ret tt, set_stdin false (stdin_buffer p ++ text) (stdin_sent p) p).

(** [p.stdin.flush()] *)
Definition stdin_flush : M unit :=
  fun p =>
    if stdin_closed p then (Raise ValueError, p)
    else
      match stdin_buffer p with
      | [] => (Ret tt, p)
      | _ :: _ =>
          if exited p then (Raise BrokenPipeError, p)
          else (Ret tt, set_stdin false [] (stdin_sent p ++ stdin_buffer p) p)
      end.

(** [p.stdin.close()]: flushes, and closes the stream also when the flush
    fails. *)
Definition stdin_close : M unit :=
  fun p =>
    if stdin_closed p then (Ret tt, p)
    else
      match stdin_buffer p with
      | [] => (Ret tt, set_stdin true [] (stdin_sent p) p)
      | _ :: _ =>
          if exited p then (Raise BrokenPipeError, set_stdin true [] (stdin_sent p) p)
          else (Ret tt, set_stdin true [] (stdin_sent p ++ stdin_buffer p) p)
      end.

Definition earliest (t : Z) (e : option Z) : Z :=
  match e with
  | Some e' => Z.min t e'
  | None => t
  end.

(** [p.terminate()]: nothing on a child that has exited; otherwise SIGTERM. *)
Definition terminate : M unit :=
  fun p =>
    if exited p then (Ret tt, p)
    else
      match sigterm_delay p with
      | Some d => (Ret tt, set_exit_at (Some (earliest (now p + Z.max 0 d) (exit_at p))) p)
      | None => (Ret tt, p)
      end.

(** [p.kill()]: nothing on a child that has exited; otherwise SIGKILL,
    which ends the child at once. *)
Definition kill : M unit :=
  fun p =>
    if exited p then (Ret tt, p)
    else (Ret tt, set_exit_at (Some (now p)) p).

(** [p.wait(timeout=timeout_s)] *)
Definition wait (timeout_s : Z) : M Z :=
  fun p =>
    match exit_at p with
    | Some e =>
        if e <=? now p + timeout_s
        then (Ret (returncode p), set_now (Z.max (now p) e) p)
        else (Raise TimeoutExpired, set_now (now p + timeout_s) p)
    | None => (Raise TimeoutExpired, set_now (now p + timeout_s) p)
    end.

(** [v.get(k)]: only a [dict] has the method. *)
Definition py_get (v : pyval) (k : str) : M pyval :=
  match v with
  | PDict items =>
      match lookup items k with
      | Some w => ret w
      | None => ret PNone
      end
  | _ => raise AttributeError
  end.

(** ** The functions of the script *)

(** [write_req(p, req)] *)
Definition write_req (req : pyval) : M unit :=
  stdin_write (dumps req ++ [LF]) ;;
  stdin_flush.

(** [read_line(p, timeout_s)] *)
Definition read_line (timeout_s : Z) : M (option line) :=
  rc <- poll ;;
  match rc with
  | Some _ => ret None
  | None =>
      r <- select_stdout timeout_s ;;
      if negb r then ret None
      else
        l <- readline ;;
        ret l
  end.

(** [a and b] in a test: [b] is evaluated only when [a] holds. *)
Definition and_then (a b : M bool) : M bool :=
  x <- a ;;
  if x then b else ret false.

(** [msg.get('type') == 'response' and msg.get('id') == target_id] *)
Definition is_response_to (msg : pyval) (target_id : str) : M bool :=
  and_then (ty <- py_get msg (lit "type") ;; ret (py_eq_str ty (lit "response")))
           (id <- py_get msg (lit "id") ;; ret (py_eq_str id target_id)).

(** [msg.get('type') == 'response' and msg.get('error') and msg.get('id') is None] *)
Definition is_orphan_error (msg : pyval) : M bool :=
  and_then (ty <- py_get msg (lit "type") ;; ret (py_eq_str ty (lit "response")))
           (and_then (err <- py_get msg (lit "error") ;; ret (py_truthy err))
                     (id <- py_get msg (lit "id") ;; ret (py_is_None id))).

(** The loop of [wait_for_response]; one unit of [fuel] per iteration. *)
Fixpoint wait_loop (fuel : nat) (start : Z) (target_id : str) (timeout_s : Z)
  : M pyval :=
  match fuel with
  | O => hang
  | S fuel =>
      t <- time_time ;;
      if t - start <? timeout_s then
        l <- read_line timeout_s ;;
        match l with
        | None => wait_loop fuel start target_id timeout_s
        | Some l =>
            match loads_line l with
            | None => wait_loop fuel start target_id timeout_s
            | Some msg =>
                answer <- is_response_to msg target_id ;;
                if answer then ret msg
                else
                  fault <- is_orphan_error msg ;;
                  if fault then ret msg
                  else wait_loop fuel start target_id timeout_s
            end
        end
      else raise TimeoutError
  end.

(** [wait_for_response(p, target_id, timeout_s)] *)
Definition wait_for_response (target_id : str) (timeout_s : Z) : M pyval :=
  start <- time_time ;;
  wait_loop (S (Z.to_nat timeout_s)) start target_id timeout_s.

(** The test after each appended fragment:
    [buf.strip().endswith(('.', '!', '?')) or '\n' in buf]. *)
Definition looks_finished (buf : str) : bool :=
  endswith_any (strip buf) [lit "."; lit "!"; lit "?"] || contains LF buf.

(** The loop of [capture_assistant_text]. *)
Fixpoint capture_loop (fuel : nat) (start : Z) (timeout_s : Z) (out : list str)
  : M str :=
  match fuel with
  | O => hang
  | S fuel =>
      t <- time_time ;;
      if t - start <? timeout_s then
        l <- read_line timeout_s ;;
        match l with
        | None =>
            rc <- poll ;;
            match rc with
            | Some _ => ret (join out)
            | None => capture_loop fuel start timeout_s out
            end
        | Some l =>
            match loads_line l with
            | None => capture_loop fuel start timeout_s out
            | Some msg =>
                ty <- py_get msg (lit "type") ;;
                if negb (py_eq_str ty (lit "notification"))
                then capture_loop fuel start timeout_s out
                else
                  me <- py_get msg (lit "method") ;;
                  if negb (py_eq_str me (lit "droid.session_notification"))
                  then capture_loop fuel start timeout_s out
                  else
                    params <- py_get msg (lit "params") ;;
                    n <- py_get (py_or params (PDict [])) (lit "notification") ;;
                    let notif := py_or n (PDict []) in
                    nty <- py_get notif (lit "type") ;;
                    if py_eq_str nty (lit "assistant_text_delta") then
                      td <- py_get notif (lit "textDelta") ;;
                      let out' := out ++ [py_str (py_or td (PStr []))] in
                      if looks_finished (join out')
                      then ret (join out')
                      else capture_loop fuel start timeout_s out'
                    else capture_loop fuel start timeout_s out
            end
        end
      else ret (join out)
  end.

(** [capture_assistant_text(p, timeout_s)] *)
Definition capture_assistant_text (timeout_s : Z) : M str :=
  start <- time_time ;;
  capture_loop (S (Z.to_nat timeout_s)) start timeout_s [].

(** [stop_proc(p)]; [p.stdin] is a pipe, hence true. *)
Definition stop_proc : M unit :=
  try_except
    (try_except stdin_close (ret tt) ;;
     terminate ;;
     _ <- wait (3 * SECOND) ;;
     ret tt)
    (try_except kill (ret tt)).

(** ** Messages and processes used in examples *)

(** A notification carrying one fragment of assistant text. *)
Definition text_delta (fragment : str) : pyval :=
  PDict [ (lit "type", PStr (lit "notification"));
          (lit "method", PStr (lit "droid.session_notification"));
          (lit "params",
            PDict [ (lit "notification",
                      PDict [ (lit "type", PStr (lit "assistant_text_delta"));
                              (lit "textDelta", PStr fragment) ]) ]) ].

(** A response to the request [id] with an empty result. *)
Definition response_to (id : str) : pyval :=
  PDict [ (lit "type", PStr (lit "response"));
          (lit "id", PStr id);
          (lit "result", PDict []) ].

(** An error reported without the identifier of a request. *)
Definition orphan_error (message : str) : pyval :=
  PDict [ (lit "type", PStr (lit "response"));
          (lit "id", PNone);
          (lit "error", PDict [ (lit "message", PStr message) ]) ].

(** A child started at instant 0 that writes [lines] and exits as
    [exit] says; it exits 50 ticks after a SIGTERM. *)
Definition child (lines : list (Z * line)) (exit : option Z) : Popen :=
  mkPopen 0 lines exit 0 (Some 50) false [] [].

(** ** Vocabulary of the specification *)

(** Field [k] of a message: [None] when the message has no such field or
    is not an object. *)
Definition field (msg : pyval) (k : str) : pyval :=
  match msg with
  | PDict items =>
      match lookup items k with
      | Some w => w
      | None => PNone
      end
  | _ => PNone
  end.

(** What [wait_for_response] may hand back for the request [target_id]. *)
Definition correlated (target_id : str) (msg : pyval) : Prop :=
  field msg (lit "type") = PStr (lit "response")
  /\ field msg (lit "type") <> PStr (lit "notification")
  /\ (field msg (lit "id") = PStr target_id
      \/ (field msg (lit "id") = PNone
          /\ py_truthy (field msg (lit "error")) = true)).

(** What a run of the loop of [wait_for_response] gives: the fuel lasts;
    a message handed back is correlated; an exception is [TimeoutError] or
    [AttributeError]; and the clock has not passed [bound]. *)
Definition wait_outcome (target_id : str) (bound : Z) (r : result pyval * Popen)
  : Prop :=
  match r with
  | (Ret msg, p') => correlated target_id msg /\ now p' <= bound
  | (Raise e, p') => (e = TimeoutError \/ e = AttributeError) /\ now p' <= bound
  | (Hang, _) => False
  end.

(** The fragment carried by a message, when the message is an assistant
    text-delta notification: type "notification", method
    "droid.session_notification", and an event of type
    "assistant_text_delta" under [params.notification]. *)
Definition delta_of (msg : pyval) : option str :=
  let notif := field (field msg (lit "params")) (lit "notification") in
  if py_eq_str (field msg (lit "type")) (lit "notification")
     && py_eq_str (field msg (lit "method")) (lit "droid.session_notification")
     && py_eq_str (field notif (lit "type")) (lit "assistant_text_delta")
  then Some (py_str (py_or (field notif (lit "textDelta")) (PStr [])))
  else None.

(** The fragments a line contributes to a capture: one, or none. *)
Definition fragment_of (l : line) : list str :=
  match loads_line l with
  | Some msg =>
      match delta_of msg with
      | Some x => [x]
      | None => []
      end
  | None => []
  end.

(** The fragments of a run of lines, in the order of the lines. *)
Definition fragments (ls : list (Z * line)) : list str :=
  flat_map (fun tl => fragment_of (snd tl)) ls.

(** What one line read during a capture leads to. *)
Inductive verdict : Type :=
| Skip
| Append (fragment : str)
| Fail.

Definition is_dict (v : pyval) : bool :=
  match v with
  | PDict _ => true
  | _ => false
  end.

Definition classify (l : line) : verdict :=
  match loads_line l with
  | None => Skip
  | Some msg =>
      if negb (is_dict msg) then Fail
      else if negb (py_eq_str (field msg (lit "type")) (lit "notification")) then Skip
      else if negb (py_eq_str (field msg (lit "method")) (lit "droid.session_notification"))
           then Skip
      else
        let params := py_or (field msg (lit "params")) (PDict []) in
        if negb (is_dict params) then Fail
        else
          let notif := py_or (field params (lit "notification")) (PDict []) in
          if negb (is_dict notif) then Fail
          else if py_eq_str (field notif (lit "type")) (lit "assistant_text_delta")
               then Append (py_str (py_or (field notif (lit "textDelta")) (PStr [])))
          else Skip
  end.

(** The completion rule as the specification words it: the buffer ends
    with a terminal punctuation character, or contains a line break. *)
Definition spec_finished (buf : str) : bool :=
  endswith_any buf [lit "."; lit "!"; lit "?"] || contains LF buf.

(** What a run of the loop gives, from any iteration on: the fuel lasts;
    the text handed back is the buffer followed by the fragments of the
    lines read, in the order read; an exception is an [AttributeError]
    raised on the last line read. *)
Definition capture_outcome (out : list str) (p : Popen) (r : result str * Popen)
  : Prop :=
  match r with
  | (Ret text, p') =>
      exists consumed,
        stdout p = consumed ++ stdout p'
        /\ text = join out ++ join (fragments consumed)
  | (Raise e, p') =>
      e = AttributeError
      /\ exists consumed t l,
           stdout p = consumed ++ (t, l) :: stdout p'
           /\ classify l = Fail
  | (Hang, _) => False
  end.

(** Measures and side conditions used in the proofs about the codec. *)

(** The number of nodes of a value: the fuel [scan_once] needs for it. *)
Fixpoint size (v : pyval) : nat :=
  match v with
  | PList l => S (list_sum (List.map (fun x => S (size x)) l))
  | PDict d => S (list_sum (List.map (fun kv => S (size (snd kv))) d))
  | _ => 1%nat
  end.

(** The text does not go on with a digit. *)
Definition no_digit_ahead (rest : str) : Prop :=
  match rest with
  | c :: _ => isdigit c = false
  | [] => True
  end.

(** The characters a JSON value may start with in the output of [dumps]. *)
Definition value_start (c : char) : bool :=
  ((c =? 110) || (c =? 116) || (c =? 102) || isdigit c || (c =? 45)
   || (c =? 34) || (c =? 91) || (c =? 123))%N.

(** The induction hypothesis on the items of a container. *)
Definition scans_back (v : pyval) : Prop :=
  forall fuel rest,
    (size v <= fuel)%nat ->
    no_digit_ahead rest ->
    scan_once fuel (dumps v ++ rest) = Some (v, rest).

(** ** Vocabulary for the traces of the loops *)




(** Does some fragment of [ls], appended in its turn to the buffer [buf],
    make the buffer look finished? *)
Fixpoint finishes_in (buf : str) (ls : list (Z * line)) : bool :=
  match ls with
  | [] => false
  | (_, l) :: rest =>
      match fragment_of l with
      | x :: _ => looks_finished (buf ++ x) || finishes_in (buf ++ x) rest
      | [] => finishes_in buf rest
      end
  end.


(** ** The two turns of [main] *)

(** [try: body / finally: final]: [final] runs whether [body] returns or
    raises; what [body] gave goes on, unless [final] raises itself. *)
Definition try_finally {A : Type} (body : M A) (final : M unit) : M A :=
  fun p =>
    match body p with
    | (Hang, p1) => (Hang, p1)
    | (r, p1) =>
        match final p1 with
        | (Ret _, p2) => (r, p2)
        | (Raise e, p2) => (Raise e, p2)
        | (Hang, p2) => (Hang, p2)
        end
    end.

(** The request [droid.initialize_session] of both turns. *)
Definition initialize_session_request (cwd model : str) : pyval :=
  PDict [ (lit "jsonrpc", PStr (lit "2.0"));
          (lit "factoryApiVersion", PStr (lit "1.0.0"));
          (lit "type", PStr (lit "request"));
          (lit "id", PStr (lit "1"));
          (lit "method", PStr (lit "droid.initialize_session"));
          (lit "params",
            PDict [ (lit "machineId", PStr (lit "m-apikey-reuse"));
                    (lit "cwd", PStr cwd);
                    (lit "modelId", PStr model);
                    (lit "autonomyLevel", PStr (lit "auto-low")) ]) ].

(** The request [droid.add_user_message]. *)
Definition add_user_message_request (id text : str) : pyval :=
  PDict [ (lit "jsonrpc", PStr (lit "2.0"));
          (lit "factoryApiVersion", PStr (lit "1.0.0"));
          (lit "type", PStr (lit "request"));
          (lit "id", PStr id);
          (lit "method", PStr (lit "droid.add_user_message"));
          (lit "params", PDict [ (lit "text", PStr text) ]) ].

(** The request [droid.load_session] of the second turn. *)
Definition load_session_request (session_id : str) : pyval :=
  PDict [ (lit "jsonrpc", PStr (lit "2.0"));
          (lit "factoryApiVersion", PStr (lit "1.0.0"));
          (lit "type", PStr (lit "request"));
          (lit "id", PStr (lit "2"));
          (lit "method", PStr (lit "droid.load_session"));
          (lit "params", PDict [ (lit "sessionId", PStr session_id) ]) ].

(** [str(((r1.get('result') or {}).get('sessionId') or '')).strip()] *)
Definition session_id_of (r1 : pyval) : M str :=
  res <- py_get r1 (lit "result") ;;
  sid <- py_get (py_or res (PDict [])) (lit "sessionId") ;;
  ret (strip (py_str (py_or sid (PStr [])))).

(** The message of turn 1 and the question of turn 2. *)
Definition remember_text (token : str) : str :=
  lit "Remember this token: " ++ token ++ lit ". Reply ONLY OK.".

Definition question_text : str :=
  lit "What token did I ask you to remember? Reply ONLY the token.".

(** The body of the first [try] of [main], on the process [p1], with its
    [finally].  The [RuntimeError] raised when the response carries no
    session identifier is the outcome [inl message]; the normal outcome is
    [inr (sid1, a1)]. *)
Definition turn1 (cwd model token : str) : M (str + str * str) :=
  try_finally
    (write_req (initialize_session_request cwd model) ;;
     r1 <- wait_for_response (lit "1") (30 * SECOND) ;;
     sid1 <- session_id_of r1 ;;
     match sid1 with
     | [] => ret (inl (lit "initialize_session missing sessionId: " ++ py_str r1))
     | _ :: _ =>
         write_req (add_user_message_request (lit "2") (remember_text token)) ;;
         _ <- wait_for_response (lit "2") (10 * SECOND) ;;
         a1 <- capture_assistant_text (40 * SECOND) ;;
         ret (inr (sid1, a1))
     end)
    stop_proc.

(** What [main] makes of the response to [droid.load_session]:
    [(load_ok, load_err)]. *)
Definition load_outcome (rload : pyval) : M (bool * str) :=
  err <- py_get rload (lit "error") ;;
  if py_truthy err then
    err' <- py_get rload (lit "error") ;;
    m <- py_get (py_or err' (PDict [])) (lit "message") ;;
    let s := strip (py_str (py_or m (PStr []))) in
    ret (false, match s with [] => lit "unknown" | _ :: _ => s end)
  else ret (true, []).

(** The body of the second [try] of [main], on the process [p2], with its
    [finally]: [(load_ok, load_err, a2)]. *)
Definition turn2 (cwd model sid1 : str) : M (bool * str * str) :=
  try_finally
    (write_req (initialize_session_request cwd model) ;;
     _ <- wait_for_response (lit "1") (30 * SECOND) ;;
     write_req (load_session_request sid1) ;;
     rload <- wait_for_response (lit "2") (30 * SECOND) ;;
     lo <- load_outcome rload ;;
     write_req (add_user_message_request (lit "3") question_text) ;;
     _ <- wait_for_response (lit "3") (10 * SECOND) ;;
     a2 <- capture_assistant_text (60 * SECOND) ;;
     ret (fst lo, snd lo, a2))
    stop_proc.


(** The standard input of the child, as the script sees it. *)
Definition stdin_state (p : Popen) : bool * str * str :=
  (stdin_closed p, stdin_buffer p, stdin_sent p).

(** A computation that does not touch the standard input of the child,
    nor its fate. *)
Definition reads_only {A : Type} (m : M A) : Prop :=
  forall p, stdin_state (snd (m p)) = stdin_state p
            /\ exit_at (snd (m p)) = exit_at p
            /\ now p <= now (snd (m p)).

(** The lines of a text: the runs of characters that end with a line
    feed, without it; a last run without line feed is kept too. *)
Fixpoint split_lines_from (current : str) (text : str) : list str :=
  match text with
  | [] => match current with [] => [] | _ :: _ => [rev current] end
  | c :: text' =>
      if (c =? LF)%N then rev current :: split_lines_from [] text'
      else split_lines_from (c :: current) text'
  end.

Definition split_lines (text : str) : list str := split_lines_from [] text.

(** The text that a sequence of calls [write_req(p, r)] puts on the
    standard input of the child. *)
Definition sent_lines (requests : list pyval) : str :=
  concat (List.map (fun r => dumps r ++ [LF]) requests).

(** [triple P m Q]: started on a process that satisfies [P], the
    computation [m], when it returns a value [a], leaves a process that
    satisfies [Q a]. *)
Definition triple {A : Type} (P : Popen -> Prop) (m : M A)
  (Q : A -> Popen -> Prop) : Prop :=
  forall p, P p ->
    match m p with
    | (Ret a, p') => Q a p'
    | _ => True
    end.

(** A child that answers the requests of the first turn. *)
Definition child_of_turn1 : Popen :=
  child [ (5, Json (PDict [ (lit "type", PStr (lit "response"));
                            (lit "id", PStr (lit "1"));
                            (lit "result",
                              PDict [ (lit "sessionId", PStr (lit " s-1 ")) ]) ]));
          (10, Json (response_to (lit "2")));
          (12, Json (text_delta (lit "OK."))) ]
        None.

(** A child that answers the requests of the second turn and refuses to
    load the session. *)
Definition child_of_turn2 : Popen :=
  child [ (5, Json (response_to (lit "1")));
          (8, Json (PDict [ (lit "type", PStr (lit "response"));
                            (lit "id", PStr (lit "2"));
                            (lit "error",
                              PDict [ (lit "message", PStr (lit " no such session ")) ]) ]));
          (10, Json (response_to (lit "3")));
          (12, Json (text_delta (lit "I do not know."))) ]
        None.


(** * Properties *)

(** ** Strings *)

Lemma str_eqb_eq (a b : str) : str_eqb a b = true <-> a = b.
Proof.
  revert b; induction a as [|x a IH]; intros [|y b]; simpl; split;
    try discriminate; try reflexivity.
  - rewrite andb_true_iff, N.eqb_eq, IH. intros [-> ->]. reflexivity.
  - intros E; inversion E; subst. rewrite N.eqb_refl. simpl.
    apply IH. reflexivity.
Qed.

Lemma str_eqb_refl (a : str) : str_eqb a a = true.
Proof. apply str_eqb_eq. reflexivity. Qed.

Lemma py_eq_str_true (v : pyval) (s : str) :
  py_eq_str v s = true <-> v = PStr s.
Proof.
  destruct v; simpl; split; try discriminate.
  - intros E. apply str_eqb_eq in E. subst. reflexivity.
  - intros E. inversion E. apply str_eqb_refl.
Qed.

(** ** Reading one line *)

Ltac unfold_m :=
  unfold bind, ret, raise, hang, time_time, try_except in *.

(** Reduce the projections of a process that is given by its fields. *)
Ltac simpl_proc :=
  cbn [now stdout exit_at returncode sigterm_delay stdin_closed stdin_buffer
       stdin_sent set_now set_stdout set_exit_at set_stdin child exited
       readable_at fst snd] in *.

(** [read_line] never raises and never blocks for ever when its time-out
    is not negative; it takes at least one tick and at most the time-out
    after it, removes at most the first unread line, and leaves the rest
    of the process as it is. *)
Lemma read_line_inv (timeout_s : Z) (p : Popen) :
  0 <= timeout_s ->
  exists r p1,
    read_line timeout_s p = (Ret r, p1)
    /\ now p + 1 <= now p1 <= now p + 1 + timeout_s
    /\ exit_at p1 = exit_at p
    /\ match r with
       | Some l => exists t, stdout p = (t, l) :: stdout p1
       | None => stdout p1 = stdout p
       end.
Proof.
  intros HT. destruct p as [n out ex rc sd cl buf sent].
  unfold read_line, poll, select_stdout, readline, readable_at, exited.
  unfold_m. cbn.
  assert (Hneg : (timeout_s <? 0) = false) by (apply Z.ltb_ge; lia).
  destruct ex as [e|]; destruct out as [|[t l] rest]; cbn; rewrite ?Hneg; cbn;
    repeat match goal with
      | |- context [if ?c then _ else _] => destruct c eqn:?; cbn
      end;
    repeat match goal with
      | H : (_ <=? _) = true |- _ => apply Z.leb_le in H
      | H : (_ <=? _) = false |- _ => apply Z.leb_gt in H
      end;
    eexists; eexists; (split; [reflexivity|]); cbn;
    repeat split; try lia; try reflexivity; eexists; reflexivity.
Qed.

(** The four ways [read_line] ends. *)

Lemma read_line_exited (timeout_s : Z) (p : Popen) :
  exited (set_now (now p + 1) p) = true ->
  read_line timeout_s p = (Ret None, set_now (now p + 1) p).
Proof.
  intros Ex. unfold read_line, poll. unfold_m. rewrite Ex. reflexivity.
Qed.

Lemma read_line_line (timeout_s : Z) (p : Popen) (t : Z) (l : line)
      (rest : list (Z * line)) :
  0 <= timeout_s ->
  exited (set_now (now p + 1) p) = false ->
  stdout p = (t, l) :: rest ->
  t <= now p + 1 + timeout_s ->
  read_line timeout_s p
  = (Ret (Some l), set_stdout rest (set_now (Z.max (now p + 1) t) p)).
Proof.
  intros HT Ex Hout Ht. destruct p as [n out ex rc sd cl buf sent].
  cbn in Hout, Ht. subst out.
  unfold read_line, poll, select_stdout, readline, readable_at. unfold_m.
  rewrite Ex. cbn.
  replace (timeout_s <? 0) with false by (symmetry; apply Z.ltb_ge; lia).
  replace (t <=? n + 1 + timeout_s) with true by (symmetry; apply Z.leb_le; lia).
  cbn. unfold set_stdout, set_now. cbn.
  replace (Z.max (Z.max (n + 1) t) t) with (Z.max (n + 1) t) by lia. reflexivity.
Qed.

Lemma read_line_eof (timeout_s : Z) (p : Popen) (e : Z) :
  0 <= timeout_s ->
  exited (set_now (now p + 1) p) = false ->
  stdout p = [] ->
  exit_at p = Some e ->
  e <= now p + 1 + timeout_s ->
  read_line timeout_s p = (Ret None, set_now (Z.max (now p + 1) e) p).
Proof.
  intros HT Ex Hout He Hle. destruct p as [n out ex rc sd cl buf sent].
  cbn in Hout, He, Hle. subst out ex.
  unfold read_line, poll, select_stdout, readline, readable_at. unfold_m.
  rewrite Ex. cbn.
  replace (timeout_s <? 0) with false by (symmetry; apply Z.ltb_ge; lia).
  replace (e <=? n + 1 + timeout_s) with true by (symmetry; apply Z.leb_le; lia).
  cbn. unfold set_now. cbn.
  replace (Z.max (Z.max (n + 1) e) e) with (Z.max (n + 1) e) by lia. reflexivity.
Qed.

Lemma read_line_silence (timeout_s : Z) (p : Popen) :
  0 <= timeout_s ->
  exited (set_now (now p + 1) p) = false ->
  match readable_at p with
  | Some t => now p + 1 + timeout_s < t
  | None => True
  end ->
  read_line timeout_s p = (Ret None, set_now (now p + 1 + timeout_s) p).
Proof.
  intros HT Ex Hr. destruct p as [n out ex rc sd cl buf sent].
  unfold read_line, poll, select_stdout, readline. unfold_m.
  rewrite Ex. cbn.
  replace (timeout_s <? 0) with false by (symmetry; apply Z.ltb_ge; lia).
  unfold readable_at in *. cbn in *.
  destruct out as [|[t l] rest]; [destruct ex as [e|]|]; cbn;
    try replace (_ <=? n + 1 + timeout_s) with false by (symmetry; apply Z.leb_gt; lia);
    reflexivity.
Qed.

(** ** Looking up fields *)

Lemma py_get_dict (items : list (str * pyval)) (k : str) (p : Popen) :
  py_get (PDict items) k p = (Ret (field (PDict items) k), p).
Proof. unfold py_get, field. destruct (lookup items k); reflexivity. Qed.

Lemma py_get_dict_ret (items : list (str * pyval)) (k : str) :
  py_get (PDict items) k = ret (field (PDict items) k).
Proof. unfold py_get, field. destruct (lookup items k); reflexivity. Qed.

Lemma py_get_field (v : pyval) (k : str) (p : Popen) :
  is_dict v = true ->
  py_get v k p = (Ret (field v k), p).
Proof. destruct v; try discriminate. intros _. apply py_get_dict. Qed.

Lemma py_get_fails (v : pyval) (k : str) (p : Popen) :
  is_dict v = false ->
  py_get v k p = (Raise AttributeError, p).
Proof. destruct v; try discriminate; reflexivity. Qed.

(** ** The loop of [wait_for_response] *)

(** On an object, the two tests of the loop raise nothing. *)
Lemma tests_on_dict (items : list (str * pyval)) (target_id : str)
      (yes no : M pyval) (p : Popen) :
  (answer <- is_response_to (PDict items) target_id ;;
   if answer then yes
   else fault <- is_orphan_error (PDict items) ;;
        if fault then yes else no) p
  = (if py_eq_str (field (PDict items) (lit "type")) (lit "response")
        && (py_eq_str (field (PDict items) (lit "id")) target_id
            || py_truthy (field (PDict items) (lit "error"))
               && py_is_None (field (PDict items) (lit "id")))
     then yes else no) p.
Proof.
  unfold is_response_to, is_orphan_error, and_then.
  rewrite !py_get_dict_ret. unfold bind, ret.
  destruct (py_eq_str (field (PDict items) (lit "type")) (lit "response")),
           (py_eq_str (field (PDict items) (lit "id")) target_id),
           (py_truthy (field (PDict items) (lit "error"))),
           (py_is_None (field (PDict items) (lit "id")));
    reflexivity.
Qed.

Lemma tests_on_non_dict (msg : pyval) (target_id : str) (k : bool -> M pyval)
      (p : Popen) :
  is_dict msg = false ->
  (answer <- is_response_to msg target_id ;; k answer) p = (Raise AttributeError, p).
Proof.
  intros H. unfold is_response_to, and_then, bind.
  rewrite py_get_fails by assumption. reflexivity.
Qed.

Lemma wait_outcome_later (target_id : str) (b1 b2 : Z) (r : result pyval * Popen) :
  b1 <= b2 ->
  wait_outcome target_id b1 r ->
  wait_outcome target_id b2 r.
Proof.
  intros Hb. destruct r as [[msg|e|] p']; cbn; try tauto; intros [H1 H2]; split;
    try assumption; lia.
Qed.

Lemma wait_loop_inv (fuel : nat) (start : Z) (target_id : str) (timeout_s : Z) :
  forall p,
    start <= now p ->
    (Z.to_nat (timeout_s - (now p - start)) < fuel)%nat ->
    wait_outcome target_id (Z.max (now p) (start + 2 * timeout_s))
      (wait_loop fuel start target_id timeout_s p).
Proof.
  induction fuel as [|fuel IH]; intros p Hstart Hfuel; [lia|].
  cbn [wait_loop]. unfold bind at 1. unfold time_time at 1.
  destruct (now p - start <? timeout_s) eqn:Hc.
  2:{ cbn. split; [left; reflexivity|lia]. }
  apply Z.ltb_lt in Hc.
  destruct (read_line_inv timeout_s p ltac:(lia)) as (r & p1 & Hr & Hnow & _ & _).
  unfold bind at 1. rewrite Hr.
  assert (Hrec : wait_outcome target_id (Z.max (now p) (start + 2 * timeout_s))
                   (wait_loop fuel start target_id timeout_s p1)).
  { apply (wait_outcome_later _ (Z.max (now p1) (start + 2 * timeout_s))); [lia|].
    apply IH; lia. }
  destruct r as [[raw|msg]|]; cbn [loads_line]; try exact Hrec.
  destruct msg as [| | | | |items];
    try (rewrite tests_on_non_dict by reflexivity;
         unfold wait_outcome; split; [right; reflexivity|lia]).
  rewrite tests_on_dict.
  destruct (py_eq_str (field (PDict items) (lit "type")) (lit "response")) eqn:Hty;
    cbn [andb]; [|exact Hrec].
  apply py_eq_str_true in Hty.
  destruct (py_eq_str (field (PDict items) (lit "id")) target_id) eqn:Hid; cbn [orb].
  - apply py_eq_str_true in Hid. unfold ret, wait_outcome, correlated.
    rewrite Hty, Hid. repeat split; auto; try discriminate; lia.
  - destruct (py_truthy (field (PDict items) (lit "error"))) eqn:Herr;
      destruct (py_is_None (field (PDict items) (lit "id"))) eqn:Hnone;
      cbn [andb]; try exact Hrec.
    unfold ret, wait_outcome, correlated.
    rewrite Hty, Herr. repeat split; try discriminate; try lia.
    right. split; auto.
    destruct (field (PDict items) (lit "id")); try discriminate. reflexivity.
Qed.

(** One iteration of the loop of [wait_for_response]. *)

Lemma wait_loop_timeout (fuel : nat) (start : Z) (target_id : str)
      (timeout_s : Z) (p : Popen) :
  timeout_s <= now p - start ->
  wait_loop (S fuel) start target_id timeout_s p = (Raise TimeoutError, p).
Proof.
  intros H. cbn [wait_loop]. unfold bind, time_time.
  replace (now p - start <? timeout_s) with false by (symmetry; apply Z.ltb_ge; lia).
  reflexivity.
Qed.

Lemma wait_loop_no_message (fuel : nat) (start : Z) (target_id : str)
      (timeout_s : Z) (p p1 : Popen) (l : option line) :
  now p - start < timeout_s ->
  read_line timeout_s p = (Ret l, p1) ->
  match l with
  | Some l' => loads_line l' = None
  | None => True
  end ->
  wait_loop (S fuel) start target_id timeout_s p
  = wait_loop fuel start target_id timeout_s p1.
Proof.
  intros Hc Hr Hl. cbn [wait_loop]. unfold bind, time_time.
  replace (now p - start <? timeout_s) with true by (symmetry; apply Z.ltb_lt; lia).
  rewrite Hr. destruct l as [l'|]; [rewrite Hl|]; reflexivity.
Qed.

(** C2.  Whatever the child writes, [wait_for_response] hands back only a
    message of type "response" whose identifier is the awaited one, or
    one whose identifier is null and that carries an error; it never
    hands back a notification or a response bearing another identifier.
    Otherwise it raises, and it always comes back. *)
Theorem wait_for_response_correlates (target_id : str) (timeout_s : Z) (p : Popen) :
  match wait_for_response target_id timeout_s p with
  | (Ret msg, _) => correlated target_id msg
  | (Raise e, _) => e = TimeoutError \/ e = AttributeError
  | (Hang, _) => False
  end.
Proof.
  pose proof (wait_loop_inv (S (Z.to_nat timeout_s)) (now p) target_id timeout_s p
                ltac:(lia) ltac:(lia)) as H.
  unfold wait_for_response, bind, time_time.
  destruct (wait_loop (S (Z.to_nat timeout_s)) (now p) target_id timeout_s p)
    as [[msg|e|] p']; unfold wait_outcome in H; tauto.
Qed.


(** The awaited response is handed back although another response and a
    notification precede it. *)
Example wait_for_response_skips_others :
  fst (wait_for_response (lit "2") 30
         (child [ (1, Json (response_to (lit "1")));
                  (2, Json (text_delta (lit "hello")));
                  (3, Json (response_to (lit "2"))) ] None))
  = Ret (response_to (lit "2")).
Proof. vm_compute. reflexivity. Qed.

(** An error without identifier is handed back to whoever is waiting. *)
Example wait_for_response_surfaces_orphan_error :
  fst (wait_for_response (lit "2") 30
         (child [ (1, Json (orphan_error (lit "unauthorized"))) ] None))
  = Ret (orphan_error (lit "unauthorized")).
Proof. vm_compute. reflexivity. Qed.

(** C1.  The time-out of [wait_for_response] is handed whole to every
    [read_line], so a wait can last twice the time-out: when the child
    writes one line that is not the response just before the time-out
    and then stays silent, [TimeoutError] is raised [2 * timeout_s] ticks
    after the call, not [timeout_s] ticks. *)
Theorem wait_for_response_overruns (timeout_s : Z) :
  2 <= timeout_s ->
  let p := child [ (timeout_s - 1, NotJson (lit "starting")) ] None in
  wait_for_response (lit "1") timeout_s p
  = (Raise TimeoutError, set_stdout [] (set_now (now p + 2 * timeout_s) p)).
Proof.
  intros HT p. subst p.
  unfold wait_for_response, bind at 1, time_time at 1.
  destruct (Z.to_nat timeout_s) as [|[|n]] eqn:E; try lia.
  pose (q := child [ (timeout_s - 1, NotJson (lit "starting")) ] None).
  pose (q1 := set_stdout [] (set_now (Z.max (now q + 1) (timeout_s - 1)) q)).
  fold q.
  rewrite (wait_loop_no_message _ _ _ _ q q1 (Some (NotJson (lit "starting"))));
    [ | subst q; simpl_proc; lia
      | subst q1 q; apply read_line_line; simpl_proc; try reflexivity; lia
      | reflexivity ].
  rewrite (wait_loop_no_message _ _ _ _ q1
             (set_now (now q1 + 1 + timeout_s) q1) None);
    [ | subst q1 q; simpl_proc; lia
      | subst q1 q; apply read_line_silence; simpl_proc;
        try reflexivity; try exact I; lia
      | exact I ].
  rewrite wait_loop_timeout by (subst q1 q; simpl_proc; lia).
  subst q1 q. unfold set_now, set_stdout, child. simpl_proc.
  do 2 f_equal. lia.
Qed.

Lemma wait_for_response_overruns_witness :
  2 <= 10
  /\ wait_for_response (lit "1") 10
       (child [ (10 - 1, NotJson (lit "starting")) ] None)
     = (Raise TimeoutError,
        set_stdout []
          (set_now (now (child [ (10 - 1, NotJson (lit "starting")) ] None) + 2 * 10)
             (child [ (10 - 1, NotJson (lit "starting")) ] None))).
Proof.
  split; [lia|]. apply (wait_for_response_overruns 10). lia.
Defined.

(** ** The loop of [capture_assistant_text] *)

Lemma capture_loop_timeout (fuel : nat) (start timeout_s : Z) (out : list str)
      (p : Popen) :
  timeout_s <= now p - start ->
  capture_loop (S fuel) start timeout_s out p = (Ret (join out), p).
Proof.
  intros H. cbn [capture_loop]. unfold bind, time_time.
  replace (now p - start <? timeout_s) with false by (symmetry; apply Z.ltb_ge; lia).
  reflexivity.
Qed.

Lemma capture_loop_no_line (fuel : nat) (start timeout_s : Z) (out : list str)
      (p p1 : Popen) :
  now p - start < timeout_s ->
  read_line timeout_s p = (Ret None, p1) ->
  capture_loop (S fuel) start timeout_s out p
  = if exited (set_now (now p1 + 1) p1)
    then (Ret (join out), set_now (now p1 + 1) p1)
    else capture_loop fuel start timeout_s out (set_now (now p1 + 1) p1).
Proof.
  intros Hc Hr. cbn [capture_loop]. unfold bind, time_time.
  replace (now p - start <? timeout_s) with true by (symmetry; apply Z.ltb_lt; lia).
  rewrite Hr. unfold poll.
  destruct (exited (set_now (now p1 + 1) p1)); reflexivity.
Qed.

Lemma capture_loop_line (fuel : nat) (start timeout_s : Z) (out : list str)
      (p p1 : Popen) (l : line) :
  now p - start < timeout_s ->
  read_line timeout_s p = (Ret (Some l), p1) ->
  capture_loop (S fuel) start timeout_s out p
  = match classify l with
    | Skip => capture_loop fuel start timeout_s out p1
    | Append x =>
        if looks_finished (join (out ++ [x]))
        then (Ret (join (out ++ [x])), p1)
        else capture_loop fuel start timeout_s (out ++ [x]) p1
    | Fail => (Raise AttributeError, p1)
    end.
Proof.
  intros Hc Hr. cbn [capture_loop]. unfold bind at 1, time_time.
  replace (now p - start <? timeout_s) with true by (symmetry; apply Z.ltb_lt; lia).
  unfold bind at 1. rewrite Hr. unfold classify.
  destruct (loads_line l) as [msg|]; [|reflexivity].
  destruct (is_dict msg) eqn:Hd; cbn [negb].
  2:{ unfold bind. rewrite py_get_fails by assumption. reflexivity. }
  unfold bind at 1. rewrite py_get_field by assumption.
  destruct (py_eq_str (field msg (lit "type")) (lit "notification")); cbn [negb];
    [|reflexivity].
  unfold bind at 1. rewrite py_get_field by assumption.
  destruct (py_eq_str (field msg (lit "method")) (lit "droid.session_notification"));
    cbn [negb]; [|reflexivity].
  unfold bind at 1. rewrite py_get_field by assumption.
  destruct (is_dict (py_or (field msg (lit "params")) (PDict []))) eqn:Hp; cbn [negb].
  2:{ unfold bind. rewrite py_get_fails by assumption. reflexivity. }
  unfold bind at 1. rewrite py_get_field by assumption. cbv zeta.
  destruct (is_dict (py_or (field (py_or (field msg (lit "params")) (PDict []))
                              (lit "notification")) (PDict []))) eqn:Hn; cbn [negb].
  2:{ unfold bind. rewrite py_get_fails by assumption. reflexivity. }
  unfold bind at 1. rewrite py_get_field by assumption.
  destruct (py_eq_str _ (lit "assistant_text_delta")); [|reflexivity].
  unfold bind at 1. rewrite py_get_field by assumption.
  destruct (looks_finished _); reflexivity.
Qed.

Lemma field_py_or (v : pyval) (k : str) :
  is_dict (py_or v (PDict [])) = true ->
  field (py_or v (PDict [])) k = field v k.
Proof.
  unfold py_or. destruct v as [|[|]|z|[|c s]|[|x l]|[|kv d]]; cbn;
    try discriminate; try reflexivity.
  destruct (z =? 0); cbn; try discriminate; reflexivity.
Qed.

Lemma field_not_dict (v : pyval) (k : str) :
  is_dict v = false -> field v k = PNone.
Proof. destruct v; try discriminate; reflexivity. Qed.

Lemma is_dict_py_or_false (v : pyval) :
  is_dict (py_or v (PDict [])) = false -> is_dict v = false.
Proof.
  unfold py_or. destruct (py_truthy v); [auto|discriminate].
Qed.

(** [classify] and [delta_of] agree on which lines carry a fragment. *)
Lemma classify_append (msg : pyval) (x : str) :
  classify (Json msg) = Append x <-> delta_of msg = Some x.
Proof.
  unfold classify, delta_of. cbn [loads_line].
  destruct (is_dict msg) eqn:Hd; cbn [negb].
  2:{ rewrite (field_not_dict msg (lit "type")) by assumption. cbn.
      split; discriminate. }
  destruct (py_eq_str (field msg (lit "type")) (lit "notification")); cbn [negb andb];
    [|split; discriminate].
  destruct (py_eq_str (field msg (lit "method")) (lit "droid.session_notification"));
    cbn [negb andb]; [|split; discriminate].
  destruct (is_dict (py_or (field msg (lit "params")) (PDict []))) eqn:Hp; cbn [negb].
  2:{ apply is_dict_py_or_false in Hp.
      rewrite (field_not_dict (field msg (lit "params"))) by assumption. cbn.
      split; discriminate. }
  rewrite (field_py_or (field msg (lit "params"))) by assumption.
  destruct (is_dict (py_or (field (field msg (lit "params")) (lit "notification"))
                       (PDict []))) eqn:Hn; cbn [negb].
  2:{ apply is_dict_py_or_false in Hn.
      rewrite (field_not_dict (field (field msg (lit "params")) (lit "notification")))
        by assumption. cbn.
      split; discriminate. }
  rewrite !(field_py_or (field (field msg (lit "params")) (lit "notification")))
    by assumption.
  destruct (py_eq_str _ (lit "assistant_text_delta")); [|split; discriminate].
  split; intros E; inversion E; reflexivity.
Qed.

Lemma fragment_of_classify (l : line) :
  fragment_of l = match classify l with
                  | Append x => [x]
                  | _ => []
                  end.
Proof.
  destruct l as [raw|msg]; [reflexivity|].
  unfold fragment_of. cbn [loads_line].
  destruct (classify (Json msg)) eqn:Hc.
  - destruct (delta_of msg) as [x|] eqn:Hx; [|reflexivity].
    apply classify_append in Hx. congruence.
  - apply classify_append in Hc. rewrite Hc. reflexivity.
  - destruct (delta_of msg) as [x|] eqn:Hx; [|reflexivity].
    apply classify_append in Hx. congruence.
Qed.

Lemma join_snoc (out : list str) (x : str) : join (out ++ [x]) = join out ++ x.
Proof. unfold join. rewrite concat_app. cbn. rewrite app_nil_r. reflexivity. Qed.

Lemma fragments_cons (t : Z) (l : line) (ls : list (Z * line)) :
  fragments ((t, l) :: ls) = fragment_of l ++ fragments ls.
Proof. reflexivity. Qed.

Lemma capture_outcome_step (out out1 : list str) (p p1 : Popen)
      (pre : list (Z * line)) (r : result str * Popen) :
  stdout p = pre ++ stdout p1 ->
  join out1 = join out ++ join (fragments pre) ->
  capture_outcome out1 p1 r ->
  capture_outcome out p r.
Proof.
  intros Hs Hj. destruct r as [[text|e|] p']; cbn; auto.
  - intros (consumed & Hc & Ht). exists (pre ++ consumed). split.
    + rewrite Hs, Hc, app_assoc. reflexivity.
    + rewrite Ht, Hj. unfold fragments, join.
      rewrite flat_map_app, concat_app, app_assoc. reflexivity.
  - intros (He & consumed & t & l & Hc & Hf). split; [assumption|].
    exists (pre ++ consumed), t, l. split; [|assumption].
    rewrite Hs, Hc, <- app_assoc. reflexivity.
Qed.

Lemma capture_loop_inv (fuel : nat) (start timeout_s : Z) :
  forall (out : list str) (p : Popen),
    start <= now p ->
    (Z.to_nat (timeout_s - (now p - start)) < fuel)%nat ->
    capture_outcome out p (capture_loop fuel start timeout_s out p).
Proof.
  induction fuel as [|fuel IH]; intros out p Hstart Hfuel; [lia|].
  destruct (Z.ltb_spec (now p - start) timeout_s) as [Hc|Hc].
  2:{ rewrite capture_loop_timeout by assumption. cbn.
      exists []. split; [reflexivity|]. cbn. rewrite app_nil_r. reflexivity. }
  destruct (read_line_inv timeout_s p ltac:(lia)) as (r & p1 & Hr & Hnow & _ & Hout).
  destruct r as [l|].
  - destruct Hout as (t & Hout).
    rewrite (capture_loop_line _ _ _ _ _ _ _ Hc Hr).
    pose proof (fragment_of_classify l) as Hfl.
    destruct (classify l) as [|x|] eqn:Hcl.
    + apply (capture_outcome_step out out p p1 [(t, l)]); [assumption| |apply IH; lia].
      rewrite fragments_cons, Hfl. cbn. rewrite app_nil_r. reflexivity.
    + destruct (looks_finished (join (out ++ [x]))).
      * cbn. exists [(t, l)]. split; [assumption|].
        rewrite fragments_cons, Hfl. cbn. rewrite app_nil_r. apply join_snoc.
      * apply (capture_outcome_step out (out ++ [x]) p p1 [(t, l)]);
          [assumption| |apply IH; lia].
        rewrite fragments_cons, Hfl. cbn. rewrite app_nil_r. apply join_snoc.
    + cbn. split; [reflexivity|]. exists [], t, l. split; assumption.
  - rewrite (capture_loop_no_line _ _ _ _ _ _ Hc Hr).
    destruct (exited (set_now (now p1 + 1) p1)).
    + cbn. exists []. split; [symmetry; assumption|]. cbn.
      rewrite app_nil_r. reflexivity.
    + apply (capture_outcome_step out out p (set_now (now p1 + 1) p1) []);
        [cbn; symmetry; assumption| cbn; rewrite app_nil_r; reflexivity|].
      apply IH; cbn; lia.
Qed.

(** C6.  The text [capture_assistant_text] hands back is the
    concatenation, in the order read, of the fragments of the assistant
    text-delta notifications among the lines it has read, and of nothing
    else; the lines it has read are a prefix of what the child wrote.
    It never raises [TimeoutError] and always comes back: when the
    time-out elapses the text buffered so far is handed back.  The only
    exception is the [AttributeError] of a line that decodes to something
    else than an object where an object is expected. *)
Theorem capture_assistant_text_concatenates (timeout_s : Z) (p : Popen) :
  match capture_assistant_text timeout_s p with
  | (Ret text, p') =>
      exists consumed,
        stdout p = consumed ++ stdout p'
        /\ text = join (fragments consumed)
  | (Raise e, p') =>
      e = AttributeError
      /\ exists consumed t l,
           stdout p = consumed ++ (t, l) :: stdout p'
           /\ classify l = Fail
  | (Hang, _) => False
  end.
Proof.
  unfold capture_assistant_text, bind, time_time.
  apply (capture_loop_inv (S (Z.to_nat timeout_s)) (now p) timeout_s [] p); lia.
Qed.

(** Fragments between other traffic are kept, in order; the time-out ends
    the capture with the text read so far. *)
Example capture_keeps_order_until_timeout :
  fst (capture_assistant_text 40
         (child [ (1, Json (text_delta (lit "To")));
                  (2, Json (response_to (lit "7")));
                  (3, NotJson (lit "warning: slow"));
                  (4, Json (text_delta (lit "ken ")));
                  (5, Json (text_delta (lit "42"))) ] None))
  = Ret (lit "Token 42").
Proof. vm_compute. reflexivity. Qed.

(** ** The completion rule *)

Lemma contains_In (c : char) (s : str) : contains c s = true <-> In c s.
Proof.
  unfold contains. rewrite existsb_exists. split.
  - intros (x & Hin & E). apply N.eqb_eq in E. subst. assumption.
  - intros Hin. exists c. split; [assumption|apply N.eqb_refl].
Qed.

Lemma endswith_char (s : str) (c : char) :
  endswith s [c] = true <-> exists pre, s = pre ++ [c].
Proof.
  unfold endswith. cbn [rev app]. split.
  - destruct (rev s) as [|d r] eqn:E; cbn; [discriminate|].
    rewrite andb_true_r, N.eqb_eq. intros ->.
    exists (rev r). rewrite <- (rev_involutive s), E. reflexivity.
  - intros (pre & ->). rewrite rev_app_distr. cbn. rewrite N.eqb_refl. reflexivity.
Qed.

(** The rule of the code in words: stripped of the white space around
    it, the buffer ends with a full stop, an exclamation mark or a
    question mark; or the buffer contains a line feed. *)
Lemma looks_finished_iff (buf : str) :
  looks_finished buf = true
  <-> (exists pre c, strip buf = pre ++ [c] /\ (c = 46 \/ c = 33 \/ c = 63)%N)
      \/ In LF buf.
Proof.
  unfold looks_finished, endswith_any. cbn [existsb].
  change (lit ".") with [46%N]. change (lit "!") with [33%N].
  change (lit "?") with [63%N].
  rewrite !orb_true_iff, !endswith_char, contains_In.
  split.
  - intros [[(pre & E)|[(pre & E)|[(pre & E)|F]]]|H]; try discriminate; auto;
      left; exists pre; eexists; split; eauto.
  - intros [(pre & c & E & [Hc|[Hc|Hc]])|H]; subst; auto; left; eauto.
Qed.

(** C5, as the specification words it, fails: the buffer "Hi. " neither
    ends with a terminal punctuation character nor contains a line
    break, yet the capture completes on it, leaving the next fragment
    unread, because the code strips the buffer before it looks at its
    end. *)
Lemma trailing_space_completes_capture :
  spec_finished (lit "Hi. ") = false
  /\ capture_assistant_text 40
       (child [ (1, Json (text_delta (lit "Hi. ")));
                (2, Json (text_delta (lit "more"))) ] None)
     = (Ret (lit "Hi. "),
        set_now 1 (child [ (2, Json (text_delta (lit "more"))) ] None)).
Proof. split; vm_compute; reflexivity. Qed.

(** C5, amended.  When a line read during a capture is an assistant
    text-delta notification, its fragment is appended to the buffer and
    the capture completes with the buffer at once if the buffer, stripped
    of the white space around it, ends with '.', '!' or '?', or if the
    buffer contains a line feed; in every other case the loop goes on
    with the longer buffer. *)
Theorem capture_completion_rule (fuel : nat) (start timeout_s : Z)
        (out : list str) (p p1 : Popen) (msg : pyval) (x : str) :
  now p - start < timeout_s ->
  read_line timeout_s p = (Ret (Some (Json msg)), p1) ->
  delta_of msg = Some x ->
  capture_loop (S fuel) start timeout_s out p
  = (if looks_finished (join out ++ x)
     then (Ret (join out ++ x), p1)
     else capture_loop fuel start timeout_s (out ++ [x]) p1)
  /\ (looks_finished (join out ++ x) = true
      <-> (exists pre c, strip (join out ++ x) = pre ++ [c]
                         /\ (c = 46 \/ c = 33 \/ c = 63)%N)
          \/ In LF (join out ++ x)).
Proof.
  intros Hc Hr Hx. split; [|apply looks_finished_iff].
  rewrite (capture_loop_line _ _ _ _ _ _ _ Hc Hr).
  apply classify_append in Hx. rewrite Hx, join_snoc. reflexivity.
Qed.

Lemma capture_completion_rule_witness :
  capture_loop 41 0 40 [lit "Hi"]
    (child [ (1, Json (text_delta (lit "! "))) ] None)
  = (Ret (lit "Hi! "), set_now 1 (child [] None)).
Proof.
  pose proof (capture_completion_rule 40 0 40 [lit "Hi"]
                (child [ (1, Json (text_delta (lit "! "))) ] None)
                (set_now 1 (child [] None))
                (text_delta (lit "! ")) (lit "! ")
                ltac:(cbn; lia) ltac:(reflexivity) ltac:(reflexivity)) as [H _].
  exact H.
Defined.



Lemma set_now_set_now (a b : Z) (p : Popen) :
  set_now a (set_now b p) = set_now a p.
Proof. reflexivity. Qed.

(** C10.  At any iteration of the capture loop within the time-out, if
    the child has exited, or exits at [e] while the loop waits for a
    further line, the text buffered so far is handed back at once: at
    the instant of the exit or of the call, whichever is later, plus the
    two ticks of the polls, whatever the time-out. *)
Theorem capture_returns_when_child_exits (fuel : nat) (start timeout_s : Z)
        (out : list str) (p : Popen) (e : Z) :
  start <= now p ->
  now p - start < timeout_s ->
  exit_at p = Some e ->
  e <= now p + 1 \/ (stdout p = [] /\ e <= now p + 1 + timeout_s) ->
  capture_loop (S fuel) start timeout_s out p
  = (Ret (join out), set_now (Z.max (now p + 1) e + 1) p).
Proof.
  intros Hs Hc He Hcase.
  destruct (Z.leb_spec e (now p + 1)) as [Hle|Hgt].
  - assert (Ex : exited (set_now (now p + 1) p) = true).
    { unfold exited. simpl_proc. rewrite He. apply Z.leb_le. lia. }
    rewrite (capture_loop_no_line _ _ _ _ _ _ Hc (read_line_exited _ _ Ex)).
    simpl_proc. rewrite set_now_set_now.
    replace (exited (set_now (now p + 1 + 1) p)) with true
      by (symmetry; unfold exited; simpl_proc; rewrite He; apply Z.leb_le; lia).
    rewrite Z.max_l by lia. reflexivity.
  - destruct Hcase as [Hle|[Hout Hle]]; [lia|].
    assert (Ex : exited (set_now (now p + 1) p) = false).
    { unfold exited. simpl_proc. rewrite He. apply Z.leb_gt. lia. }
    rewrite (capture_loop_no_line _ _ _ _ _ _ Hc
               (read_line_eof timeout_s p e ltac:(lia) Ex Hout He Hle)).
    simpl_proc. rewrite set_now_set_now.
    replace (exited (set_now (Z.max (now p + 1) e + 1) p)) with true
      by (symmetry; unfold exited; simpl_proc; rewrite He; apply Z.leb_le; lia).
    reflexivity.
Qed.

Lemma capture_returns_when_child_exits_witness :
  capture_loop 41 0 40 [lit "partial"] (set_now 3 (child [] (Some 7)))
  = (Ret (lit "partial"), set_now 8 (child [] (Some 7))).
Proof.
  apply (capture_returns_when_child_exits 40 0 40 [lit "partial"]
           (set_now 3 (child [] (Some 7))) 7);
    [cbn; lia | cbn; lia | reflexivity | right; split; [reflexivity | cbn; lia]].
Defined.

(** The same from the call on: the child writes one fragment and exits
    at instant 5; the capture of 40 ticks ends at instant 6. *)
Example capture_ends_with_the_child :
  capture_assistant_text 40
    (child [ (1, Json (text_delta (lit "Hi"))) ] (Some 5))
  = (Ret (lit "Hi"), set_now 6 (child [] (Some 5))).
Proof. vm_compute. reflexivity. Qed.

(** [wait_for_response] has no such test: once the child has exited it
    polls until the time-out. *)
Example wait_for_response_polls_a_dead_child :
  wait_for_response (lit "1") 40 (child [] (Some 5))
  = (Raise TimeoutError, set_now 40 (child [] (Some 5))).
Proof. vm_compute. reflexivity. Qed.

(** ** [read_line] *)




(** ** Lines that are not messages *)

(** A line on which [json.loads] raises, and a JSON object without the
    field "type", are passed over by both loops. *)
Lemma garbage_is_passed_over (fuel : nat) (start timeout_s : Z) (target_id : str)
      (out : list str) (p p1 : Popen) (l : line) :
  now p - start < timeout_s ->
  read_line timeout_s p = (Ret (Some l), p1) ->
  loads_line l = None
  \/ (exists items, l = Json (PDict items) /\ lookup items (lit "type") = None) ->
  wait_loop (S fuel) start target_id timeout_s p
  = wait_loop fuel start target_id timeout_s p1
  /\ capture_loop (S fuel) start timeout_s out p
     = capture_loop fuel start timeout_s out p1.
Proof.
  intros Hc Hr [Hl|(items & -> & Hty)].
  - split.
    + apply (wait_loop_no_message _ _ _ _ _ _ (Some l)); assumption.
    + rewrite (capture_loop_line _ _ _ _ _ _ _ Hc Hr).
      unfold classify. rewrite Hl. reflexivity.
  - split.
    + cbn [wait_loop]. unfold bind at 1, time_time.
      replace (now p - start <? timeout_s) with true
        by (symmetry; apply Z.ltb_lt; lia).
      unfold bind at 1. rewrite Hr. cbn [loads_line].
      rewrite tests_on_dict.
      assert (E : field (PDict items) (lit "type") = PNone)
        by (unfold field; rewrite Hty; reflexivity).
      rewrite E. reflexivity.
    + rewrite (capture_loop_line _ _ _ _ _ _ _ Hc Hr).
      unfold classify. cbn [loads_line is_dict negb].
      assert (E : field (PDict items) (lit "type") = PNone)
        by (unfold field; rewrite Hty; reflexivity).
      rewrite E. reflexivity.
Qed.


(** C4.  A line that is valid JSON but not an object is not passed over:
    the number 42 makes [wait_for_response] raise [AttributeError], and
    so does an empty array in [capture_assistant_text], or a notification
    whose "params" is a string. *)
Theorem non_object_line_raises :
  wait_for_response (lit "1") 30 (child [ (1, Json (PInt 42)) ] None)
  = (Raise AttributeError, set_now 1 (child [] None))
  /\ capture_assistant_text 40 (child [ (1, Json (PList [])) ] None)
     = (Raise AttributeError, set_now 1 (child [] None))
  /\ capture_assistant_text 40
       (child [ (1, Json (PDict [ (lit "type", PStr (lit "notification"));
                                  (lit "method", PStr (lit "droid.session_notification"));
                                  (lit "params", PStr (lit "oops")) ])) ] None)
     = (Raise AttributeError, set_now 1 (child [] None)).
Proof. repeat split; vm_compute; reflexivity. Qed.

(** The lines above are what [json.loads] makes of the texts [42] and
    [[]]. *)
Example non_object_texts :
  json_loads (lit "42") = Some (PInt 42) /\ json_loads (lit "[]") = Some (PList []).
Proof. split; vm_compute; reflexivity. Qed.

(** [json.loads] raises on text that is not JSON and on a truncated
    document. *)
Example malformed_texts :
  json_loads (lit "starting droid...") = None
  /\ json_loads (lit "{" ++ [QUOTE] ++ lit "type" ++ [QUOTE] ++ lit ": "
                 ++ [QUOTE] ++ lit "respo") = None.
Proof. split; vm_compute; reflexivity. Qed.

(** ** [stop_proc] *)

Lemma stop_proc_kills (p : Popen) :
  exists p',
    stop_proc p = (Ret tt, p')
    /\ exited p' = true
    /\ stdin_closed p' = true.
Proof.
  destruct p as [n out ex rc sd cl buf sent].
  unfold stop_proc, stdin_close, terminate, wait, kill, exited, earliest, SECOND.
  unfold_m. cbn.
  destruct cl; destruct buf as [|c buf]; destruct ex as [e|]; destruct sd as [d|]; cbn;
    repeat match goal with
      | |- context [if ?c then _ else _] => destruct c eqn:?; cbn
      end;
    repeat match goal with
      | H : (_ <=? _) = true |- _ => apply Z.leb_le in H
      | H : (_ <=? _) = false |- _ => apply Z.leb_gt in H
      end;
    eexists; (split; [reflexivity|]); cbn; split; try reflexivity;
    apply Z.leb_le; lia.
Qed.



(** A child that ignores SIGTERM is killed after the three seconds of
    grace. *)
Example stop_proc_kills_a_deaf_child :
  stop_proc (mkPopen 0 [] None 0 None false [] [])
  = (Ret tt, mkPopen 3000 [] (Some 3000) 0 None true [] []).
Proof. vm_compute. reflexivity. Qed.

(** A child that honours SIGTERM is not killed. *)
Example stop_proc_terminates_gracefully :
  stop_proc (child [] None) = (Ret tt, mkPopen 50 [] (Some 50) 0 (Some 50) true [] []).
Proof. vm_compute. reflexivity. Qed.

(** ** The JSON codec *)

Lemma pyval_nested_ind (P : pyval -> Prop) :
  P PNone ->
  (forall b, P (PBool b)) ->
  (forall z, P (PInt z)) ->
  (forall s, P (PStr s)) ->
  (forall l, Forall P l -> P (PList l)) ->
  (forall d, Forall (fun kv => P (snd kv)) d -> P (PDict d)) ->
  forall v, P v.
Proof.
  intros HN HB HI HS HL HD. fix IH 1. intros [|b|z|s|l|d].
  - exact HN.
  - apply HB.
  - apply HI.
  - apply HS.
  - apply HL. revert l. fix IHl 1. intros [|x l]; constructor;
      [apply IH | apply IHl].
  - apply HD. revert d. fix IHd 1. intros [|kv d]; constructor;
      [apply IH | apply IHd].
Qed.

Lemma hexdigit_ge (n : N) : (48 <= hexdigit n)%N.
Proof. unfold hexdigit. destruct (n <? 10)%N; lia. Qed.

(** [json.dumps] escapes every control character. *)
Lemma escape_char_printable (c : char) :
  Forall (fun d => (32 <= d)%N) (escape_char c).
Proof.
  unfold escape_char.
  repeat match goal with
    | |- context [if ?b then _ else _] => destruct b eqn:?
    end;
    repeat constructor; try lia;
    try (pose proof (hexdigit_ge (c / 16)); pose proof (hexdigit_ge (c mod 16)); lia).
  apply N.ltb_ge. assumption.
Qed.

Lemma scanstring_escape (c : char) (tail acc : str) :
  scanstring (escape_char c ++ tail) acc = scanstring tail (c :: acc).
Proof.
  destruct (N.ltb_spec c 32) as [Hlt|Hge].
  - destruct c as [|p]; [reflexivity|].
    do 5 (try destruct p as [p|p|]); try reflexivity; exfalso; lia.
  - destruct (N.eqb_spec c 34) as [->|H34]; [reflexivity|].
    destruct (N.eqb_spec c 92) as [->|H92]; [reflexivity|].
    unfold escape_char.
    replace (c =? 34)%N with false by (symmetry; apply N.eqb_neq; lia).
    replace (c =? 92)%N with false by (symmetry; apply N.eqb_neq; lia).
    replace (c =? 10)%N with false by (symmetry; apply N.eqb_neq; lia).
    replace (c =? 13)%N with false by (symmetry; apply N.eqb_neq; lia).
    replace (c =? 9)%N with false by (symmetry; apply N.eqb_neq; lia).
    replace (c =? 8)%N with false by (symmetry; apply N.eqb_neq; lia).
    replace (c =? 12)%N with false by (symmetry; apply N.eqb_neq; lia).
    replace (c <? 32)%N with false by (symmetry; apply N.ltb_ge; lia).
    cbn [app scanstring].
    replace (c =? 34)%N with false by (symmetry; apply N.eqb_neq; lia).
    replace (c =? 92)%N with false by (symmetry; apply N.eqb_neq; lia).
    replace (c <? 32)%N with false by (symmetry; apply N.ltb_ge; lia).
    reflexivity.
Qed.

(** Scanning an encoded string gives the string back. *)
Lemma scanstring_encoded (s : str) :
  forall acc rest,
    scanstring (flat_map escape_char s ++ QUOTE :: rest) acc
    = Some (rev acc ++ s, rest).
Proof.
  induction s as [|c s IH]; intros acc rest; cbn [flat_map].
  - cbn. rewrite app_nil_r. reflexivity.
  - rewrite <- app_assoc, scanstring_escape, IH. cbn [rev].
    rewrite <- app_assoc. reflexivity.
Qed.

Lemma take_digits_digits (u : Decimal.uint) (rest : str) :
  no_digit_ahead rest ->
  take_digits (digits u ++ rest) = (u, rest).
Proof.
  intros Hrest. induction u; cbn -[take_digits] in *;
    try (cbn [take_digits]; change (isdigit (digit_char _)) with true;
         cbv iota; rewrite IHu; reflexivity).
  destruct rest as [|c r]; [reflexivity|]. cbn in *. rewrite Hrest. reflexivity.
Qed.

Lemma to_uint_normal (p : positive) :
  Decimal.unorm (Pos.to_uint p) = Pos.to_uint p.
Proof.
  rewrite <- DecimalPos.Unsigned.to_of, DecimalPos.Unsigned.of_to. reflexivity.
Qed.

(** The decimal digits of a positive number do not start with a zero. *)
Lemma to_uint_no_leading_zero (p : positive) (u : Decimal.uint) :
  Pos.to_uint p <> Decimal.D0 u.
Proof.
  intros E. pose proof (to_uint_normal p) as Hn. rewrite E in Hn.
  unfold Decimal.unorm in Hn. cbn [Decimal.nzhead] in Hn.
  destruct (Decimal.nzhead u) eqn:Hz.
  - inversion Hn; subst.
    apply (DecimalPos.Unsigned.to_uint_nonzero p). exact E.
  - inversion Hn; subst. apply (DecimalFacts.nzhead_nonzero _ _ Hz).
  - discriminate.
  - discriminate.
  - discriminate.
  - discriminate.
  - discriminate.
  - discriminate.
  - discriminate.
  - discriminate.
  - discriminate.
Qed.

Lemma scan_uint_positive (p : positive) (rest : str) :
  no_digit_ahead rest ->
  scan_uint (digits (Pos.to_uint p) ++ rest) = Some (Pos.to_uint p, rest).
Proof.
  intros Hrest.
  pose proof (DecimalPos.Unsigned.to_uint_nonnil p) as Hnil.
  pose proof (to_uint_no_leading_zero p) as Hz.
  pose proof (take_digits_digits (Pos.to_uint p) rest Hrest) as Ht.
  destruct (Pos.to_uint p) as [|u|u|u|u|u|u|u|u|u|u];
    [ congruence | exfalso; eapply Hz; reflexivity | .. ];
    unfold scan_uint; cbn [digits app];
    change (isdigit (digit_char _)) with true;
    change ((digit_char _ =? 48)%N) with false; cbv iota;
    cbn [digits app] in Ht; rewrite Ht; reflexivity.
Qed.

Lemma scan_once_digit (fuel : nat) (c : char) (s : str) :
  isdigit c = true ->
  scan_once (S fuel) (c :: s)
  = match scan_uint (c :: s) with
    | Some (u, r) => Some (PInt (Z.of_int (Decimal.Pos u)), r)
    | None => None
    end.
Proof.
  intros Hd. unfold isdigit in Hd. apply andb_true_iff in Hd.
  destruct Hd as [H1 H2]. apply N.leb_le in H1, H2.
  cbn [scan_once].
  replace (c =? 34)%N with false by (symmetry; apply N.eqb_neq; lia).
  replace (c =? 123)%N with false by (symmetry; apply N.eqb_neq; lia).
  replace (c =? 91)%N with false by (symmetry; apply N.eqb_neq; lia).
  replace (c =? 45)%N with false by (symmetry; apply N.eqb_neq; lia).
  change (lit "null") with [110; 117; 108; 108]%N.
  change (lit "true") with [116; 114; 117; 101]%N.
  change (lit "false") with [102; 97; 108; 115; 101]%N.
  cbn [startswith].
  replace (110 =? c)%N with false by (symmetry; apply N.eqb_neq; lia).
  replace (116 =? c)%N with false by (symmetry; apply N.eqb_neq; lia).
  replace (102 =? c)%N with false by (symmetry; apply N.eqb_neq; lia).
  reflexivity.
Qed.

(** Scanning the decimal form of an integer gives the integer back. *)
Lemma scan_once_int (fuel : nat) (z : Z) (rest : str) :
  no_digit_ahead rest ->
  scan_once (S fuel) (str_of_int z ++ rest) = Some (PInt z, rest).
Proof.
  intros Hrest. unfold str_of_int.
  rewrite <- (DecimalZ.of_to z) at 2.
  destruct z as [|p|p]; cbn [Z.to_int].
  - reflexivity.
  - pose proof (scan_uint_positive p rest Hrest) as Hs.
    pose proof (DecimalPos.Unsigned.to_uint_nonnil p) as Hnil.
    destruct (digits (Pos.to_uint p) ++ rest) as [|c s] eqn:E.
    + destruct (Pos.to_uint p); try congruence; discriminate.
    + assert (Hc : isdigit c = true).
      { destruct (Pos.to_uint p); try congruence; inversion E; reflexivity. }
      rewrite scan_once_digit by assumption. rewrite Hs. reflexivity.
  - cbn [app]. cbn [scan_once]. cbn [N.eqb Pos.eqb startswith lit].
    change (startswith (45%N :: digits (Pos.to_uint p) ++ rest) (lit "null")) with false.
    change (startswith (45%N :: digits (Pos.to_uint p) ++ rest) (lit "true")) with false.
    change (startswith (45%N :: digits (Pos.to_uint p) ++ rest) (lit "false")) with false.
    cbv iota. rewrite (scan_uint_positive p rest Hrest). reflexivity.
Qed.

Lemma value_start_facts (c : char) :
  value_start c = true ->
  is_ws c = false
  /\ (c =? 93)%N = false
  /\ (c =? 125)%N = false
  /\ (c =? 65279)%N = false.
Proof.
  unfold value_start, is_ws, isdigit.
  rewrite !orb_true_iff, andb_true_iff, !N.eqb_eq, !N.leb_le.
  intros H. rewrite !orb_false_iff, !N.eqb_neq. lia.
Qed.

(** The output of [dumps] starts with a character that opens a value. *)
Lemma dumps_head (v : pyval) :
  exists c tl, dumps v = c :: tl /\ value_start c = true.
Proof.
  destruct v as [|[|]|z|s|l|d]; try (eexists; eexists; split; reflexivity).
  cbn [dumps]. unfold str_of_int. destruct z as [|p|p]; cbn [Z.to_int];
    try (eexists; eexists; split; reflexivity).
  pose proof (DecimalPos.Unsigned.to_uint_nonnil p) as Hnil.
  destruct (Pos.to_uint p); try congruence;
    eexists; eexists; split; reflexivity.
Qed.

Lemma skip_ws_dumps (v : pyval) (rest : str) :
  skip_ws (dumps v ++ rest) = dumps v ++ rest.
Proof.
  destruct (dumps_head v) as (c & tl & -> & Hc).
  apply value_start_facts in Hc. destruct Hc as (Hws & _).
  cbn. rewrite Hws. reflexivity.
Qed.

Lemma join_with_head (sep : str) (x : str) (xs : list str) :
  exists tl, join_with sep (x :: xs) = x ++ tl.
Proof.
  destruct xs; cbn [join_with]; [exists []; rewrite app_nil_r|eexists]; reflexivity.
Qed.

Lemma join_with_cons (sep x y : str) (xs : list str) :
  join_with sep (x :: y :: xs) = x ++ sep ++ join_with sep (y :: xs).
Proof. reflexivity. Qed.

Lemma skip_ws_join_with (sep x : str) (xs : list str) (r : str) :
  (exists c tl, x = c :: tl /\ is_ws c = false) ->
  skip_ws (join_with sep (x :: xs) ++ r) = join_with sep (x :: xs) ++ r.
Proof.
  intros (c & tl & -> & Hc). destruct xs; cbn; rewrite Hc; reflexivity.
Qed.

Lemma dumps_not_ws (v : pyval) :
  exists c tl, dumps v = c :: tl /\ is_ws c = false.
Proof.
  destruct (dumps_head v) as (c & tl & E & Hc).
  apply value_start_facts in Hc. destruct Hc as (Hws & _). eauto.
Qed.

Lemma scan_once_array (fuel : nat) (text : str) :
  scan_once (S fuel) (91%N :: text)
  = match skip_ws text with
    | d :: r =>
        if (d =? 93)%N then Some (PList [], r) else parse_elements fuel (d :: r) []
    | [] => None
    end.
Proof. reflexivity. Qed.

Lemma scan_once_object (fuel : nat) (text : str) :
  scan_once (S fuel) (123%N :: text)
  = match skip_ws text with
    | d :: r =>
        if (d =? 125)%N then Some (PDict [], r) else parse_members fuel (d :: r) []
    | [] => None
    end.
Proof. reflexivity. Qed.

Lemma scan_once_encoded (fuel : nat) (s rest : str) :
  scan_once (S fuel) (encode_basestring s ++ rest) = Some (PStr s, rest).
Proof.
  unfold encode_basestring. cbn [app]. rewrite <- app_assoc. cbn [app].
  change (scan_once (S fuel) (QUOTE :: ?t))
    with (match scanstring t [] with
          | Some (u, r) => Some (PStr u, r)
          | None => None
          end).
  rewrite scanstring_encoded. reflexivity.
Qed.

Lemma parse_elements_dumps (l : list pyval) :
  Forall scans_back l ->
  l <> [] ->
  forall fuel acc rest,
    (list_sum (List.map (fun x => S (size x)) l) <= fuel)%nat ->
    parse_elements fuel
      (join_with (lit ", ") (List.map dumps l) ++ 93%N :: rest) acc
    = Some (PList (rev acc ++ l), rest).
Proof.
  induction 1 as [|v l Hv Hl IH]; intros Hne fuel acc rest Hfuel; [congruence|].
  cbn [List.map list_sum fold_right] in Hfuel.
  destruct fuel as [|fuel]; [lia|].
  destruct l as [|v2 l'].
  - cbn [List.map join_with]. cbn [parse_elements].
    rewrite (Hv fuel (93%N :: rest)) by (cbn; try reflexivity; lia).
    cbn. reflexivity.
  - cbn [List.map]. rewrite join_with_cons, <- !app_assoc.
    change (lit ", ") with [44%N; 32%N]. cbn [app].
    cbn [parse_elements].
    rewrite (Hv fuel) by (cbn; try reflexivity; lia).
    cbn [skip_ws is_ws N.eqb Pos.eqb orb].
    cbv iota.
    rewrite skip_ws_join_with by apply dumps_not_ws.
    change (dumps v2 :: List.map dumps l') with (List.map dumps (v2 :: l')).
    change [44%N; 32%N] with (lit ", ").
    rewrite IH; [|discriminate|cbn [List.map list_sum fold_right] in *; lia].
    cbn [rev]. rewrite <- app_assoc. reflexivity.
Qed.

Lemma parse_members_item (fuel : nat) (k : str) (v : pyval) (rest : str)
      (acc : list (str * pyval)) :
  scans_back v ->
  (size v <= fuel)%nat ->
  no_digit_ahead rest ->
  parse_members (S fuel) (encode_basestring k ++ lit ": " ++ dumps v ++ rest) acc
  = match skip_ws rest with
    | c :: r =>
        if (c =? 125)%N then Some (PDict (rev ((k, v) :: acc)), r)
        else if (c =? 44)%N then parse_members fuel (skip_ws r) ((k, v) :: acc)
        else None
    | [] => None
    end.
Proof.
  intros Hv Hfuel Hrest.
  unfold encode_basestring. cbn [app]. rewrite <- app_assoc. cbn [app].
  cbn [parse_members]. change (QUOTE =? 34)%N with true. cbn [negb].
  rewrite scanstring_encoded. cbn [rev app].
  change (lit ": ") with [58%N; 32%N]. cbn [app].
  cbn [skip_ws is_ws N.eqb Pos.eqb orb negb]. cbv iota.
  rewrite skip_ws_dumps, (Hv fuel rest Hfuel Hrest). reflexivity.
Qed.

Lemma parse_members_dumps (d : list (str * pyval)) :
  Forall (fun kv => scans_back (snd kv)) d ->
  d <> [] ->
  forall fuel acc rest,
    (list_sum (List.map (fun kv => S (size (snd kv))) d) <= fuel)%nat ->
    parse_members fuel
      (join_with (lit ", ")
         (List.map (fun kv => encode_basestring (fst kv) ++ lit ": " ++ dumps (snd kv)) d)
       ++ 125%N :: rest) acc
    = Some (PDict (rev acc ++ d), rest).
Proof.
  induction 1 as [|[k v] d Hv Hd IH]; intros Hne fuel acc rest Hfuel; [congruence|].
  cbn [List.map list_sum fold_right snd fst] in *.
  destruct fuel as [|fuel]; [lia|].
  destruct d as [|[k2 v2] d'].
  - cbn [List.map join_with]. rewrite <- !app_assoc.
    rewrite parse_members_item by (cbn; try assumption; try reflexivity; lia).
    cbn. reflexivity.
  - cbn [List.map fst snd]. rewrite join_with_cons, <- !app_assoc.
    rewrite parse_members_item by (cbn; try assumption; try reflexivity; lia).
    change (lit ", ") with [44%N; 32%N]. cbn [app].
    cbn [skip_ws is_ws N.eqb Pos.eqb orb]. cbv iota.
    rewrite skip_ws_join_with
      by (eexists; eexists; split; [unfold encode_basestring; reflexivity|reflexivity]).
    change [44%N; 32%N] with (lit ", ").
    replace (rev acc ++ (k, v) :: (k2, v2) :: d')
      with (rev ((k, v) :: acc) ++ (k2, v2) :: d')
      by (cbn [rev]; rewrite <- app_assoc; reflexivity).
    apply (IH ltac:(discriminate)).
    cbn [List.map list_sum fold_right snd fst] in Hfuel |- *. lia.
Qed.

(** Scanning the output of [dumps] gives the value back. *)
Lemma scan_once_dumps (v : pyval) : scans_back v.
Proof.
  induction v as [|b|z|s|l IH|d IH] using pyval_nested_ind;
    intros fuel rest Hfuel Hrest; cbn [size] in Hfuel;
    (destruct fuel as [|fuel]; [lia|]).
  - reflexivity.
  - destruct b; reflexivity.
  - apply scan_once_int. assumption.
  - apply scan_once_encoded.
  - cbn [dumps]. change (lit "[") with [91%N]. change (lit "]") with [93%N].
    cbn [app]. rewrite <- app_assoc. cbn [app]. rewrite scan_once_array.
    destruct l as [|v l].
    + reflexivity.
    + destruct (join_with_head (lit ", ") (dumps v) (List.map dumps l)) as (tl & E).
      destruct (dumps_head v) as (c & tl' & Ev & Hc).
      pose proof (parse_elements_dumps (v :: l) IH ltac:(discriminate)
                    fuel [] rest ltac:(lia)) as Hp.
      cbn [List.map] in *. rewrite E in *. rewrite Ev in *.
      cbn [app] in *. apply value_start_facts in Hc.
      destruct Hc as (Hws & H93 & _).
      cbn [skip_ws]. rewrite Hws, H93. exact Hp.
  - cbn [dumps]. change (lit "{") with [123%N]. change (lit "}") with [125%N].
    cbn [app]. rewrite <- app_assoc. cbn [app]. rewrite scan_once_object.
    destruct d as [|[k v] d].
    + reflexivity.
    + pose proof (parse_members_dumps ((k, v) :: d) IH ltac:(discriminate)
                    fuel [] rest ltac:(lia)) as Hp.
      cbn [List.map fst snd] in *.
      destruct (join_with_head (lit ", ")
                  (encode_basestring k ++ lit ": " ++ dumps v)
                  (List.map (fun kv => encode_basestring (fst kv) ++ lit ": "
                                       ++ dumps (snd kv)) d)) as (tl & E).
      rewrite E in *. unfold encode_basestring in *. cbn [app] in *.
      cbn [skip_ws]. change (is_ws QUOTE) with false.
      change (QUOTE =? 125)%N with false. exact Hp.
Qed.

Lemma length_join_with (sep : str) (parts : list str) :
  (list_sum (List.map (fun x => List.length x) parts) <= List.length (join_with sep parts))%nat.
Proof.
  induction parts as [|x [|y parts] IH]; cbn [List.map list_sum fold_right join_with] in *.
  - cbn. lia.
  - lia.
  - rewrite !length_app. lia.
Qed.

(** A value has no more nodes than its text has characters, so the fuel
    [json_loads] starts with is enough. *)
Lemma size_le_length (v : pyval) : (size v <= List.length (dumps v))%nat.
Proof.
  induction v as [|b|z|s|l IH|d IH] using pyval_nested_ind; cbn [size dumps].
  - cbn. lia.
  - destruct b; cbn; lia.
  - destruct (dumps_head (PInt z)) as (c & tl & E & _). cbn [dumps] in E.
    rewrite E. cbn. lia.
  - unfold encode_basestring. cbn. lia.
  - rewrite !length_app.
    change (List.length (lit "[")) with 1%nat.
    change (List.length (lit "]")) with 1%nat.
    assert (H : (list_sum (List.map (fun x => S (size x)) l)
                 <= List.length (join_with (lit ", ") (List.map dumps l)) + 1)%nat).
    { clear -IH. induction IH as [|v l Hv Hl IHl]; [cbn; lia|].
      destruct l as [|v2 l'].
      - cbn [List.map list_sum fold_right join_with]. lia.
      - cbn [List.map]. rewrite join_with_cons, !length_app.
        cbn [List.map list_sum fold_right] in *.
        change (List.length (lit ", ")) with 2%nat. lia. }
    lia.
  - rewrite !length_app.
    change (List.length (lit "{")) with 1%nat.
    change (List.length (lit "}")) with 1%nat.
    assert (H : (list_sum (List.map (fun kv => S (size (snd kv))) d)
                 <= List.length
                      (join_with (lit ", ")
                         (List.map (fun kv => encode_basestring (fst kv) ++ lit ": "
                                              ++ dumps (snd kv)) d)) + 1)%nat).
    { clear -IH. induction IH as [|[k v] d Hv Hd IHd]; [cbn; lia|].
      destruct d as [|kv2 d'].
      - cbn [List.map list_sum fold_right join_with fst snd] in *.
        rewrite !length_app. lia.
      - cbn [List.map]. rewrite join_with_cons, !length_app.
        cbn [List.map list_sum fold_right fst snd] in *.
        change (List.length (lit ", ")) with 2%nat. lia. }
    lia.
Qed.

(** Decoding after encoding gives the value back. *)
Lemma json_loads_dumps (v : pyval) : json_loads (dumps v) = Some v.
Proof.
  unfold json_loads.
  destruct (dumps_head v) as (c & tl & E & Hc).
  apply value_start_facts in Hc. destruct Hc as (Hws & _ & _ & Hbom).
  assert (Hb : startswith (dumps v) [65279%N] = false).
  { rewrite E. cbn [startswith]. rewrite N.eqb_sym, Hbom. reflexivity. }
  rewrite Hb.
  rewrite <- (app_nil_r (dumps v)) at 2. rewrite skip_ws_dumps.
  rewrite (scan_once_dumps v); [reflexivity| |exact I].
  pose proof (size_le_length v). lia.
Qed.

Lemma Forall_join_with (P : N -> Prop) (sep : str) (parts : list str) :
  Forall P sep ->
  Forall (Forall P) parts ->
  Forall P (join_with sep parts).
Proof.
  intros Hsep. induction 1 as [|x [|y parts] Hx Hparts IH]; cbn [join_with].
  - constructor.
  - assumption.
  - rewrite !Forall_app. auto.
Qed.

(** Close [32 <= c] for a character given by a literal. *)
Ltac printable_literal :=
  repeat constructor; first [lia | vm_compute; discriminate].

Lemma digits_printable (u : Decimal.uint) : Forall (fun c => (32 <= c)%N) (digits u).
Proof.
  induction u; cbn [digits]; constructor; try assumption; unfold digit_char; lia.
Qed.

Lemma encode_basestring_printable (s : str) :
  Forall (fun c => (32 <= c)%N) (encode_basestring s).
Proof.
  unfold encode_basestring. constructor; [printable_literal|].
  rewrite Forall_app. split; [|printable_literal].
  induction s as [|c s IH]; cbn [flat_map]; [constructor|].
  rewrite Forall_app. split; [apply escape_char_printable|assumption].
Qed.

(** The output of [dumps] holds no control character: no line feed, no
    carriage return. *)
Lemma dumps_printable (v : pyval) : Forall (fun c => (32 <= c)%N) (dumps v).
Proof.
  induction v as [|b|z|s|l IH|d IH] using pyval_nested_ind; cbn [dumps].
  - printable_literal.
  - destruct b; printable_literal.
  - unfold str_of_int. destruct (Z.to_int z).
    + apply digits_printable.
    + constructor; [lia|apply digits_printable].
  - apply encode_basestring_printable.
  - rewrite !Forall_app. repeat split; try printable_literal.
    apply Forall_join_with; [printable_literal|].
    induction IH; constructor; assumption.
  - rewrite !Forall_app. repeat split; try printable_literal.
    apply Forall_join_with; [printable_literal|].
    induction IH as [|[k v] d Hv Hd IHd]; constructor; [|assumption].
    rewrite !Forall_app. repeat split;
      [apply encode_basestring_printable|printable_literal|assumption].
Qed.



(** The line feed inside a string goes out as a backslash and an [n]. *)
Example dumps_escapes_line_feed :
  dumps (PStr (lit "one" ++ [LF] ++ lit "two"))
  = [QUOTE] ++ lit "one" ++ [BACKSLASH] ++ lit "ntwo" ++ [QUOTE].
Proof. reflexivity. Qed.

(** * Further properties of the script *)

(** ** [wait_for_response]: what it reads, drops and finds *)











(** ** [capture_assistant_text]: duration, first completion, composition *)




Example capture_overruns :
  capture_assistant_text 10 (child [ (9, Json (text_delta (lit "wait"))) ] None)
  = (Ret (lit "wait"), set_now 21 (child [] None)).
Proof. vm_compute. reflexivity. Qed.

Lemma finishes_in_app (buf : str) (a b : list (Z * line)) :
  finishes_in buf (a ++ b)
  = finishes_in buf a || finishes_in (buf ++ join (fragments a)) b.
Proof.
  revert buf. induction a as [|[t l] a IH]; intros buf; cbn [app finishes_in].
  - cbn. rewrite app_nil_r. reflexivity.
  - rewrite fragments_cons. unfold fragment_of.
    destruct (loads_line l) as [msg|]; [destruct (delta_of msg) as [x|]|];
      cbn [app]; rewrite ?IH; unfold join; cbn [app concat];
      rewrite ?app_nil_r, ?orb_assoc, ?app_assoc; reflexivity.
Qed.

(** The outcome of a capture, with the lines read and the proof that no
    line but the last one read completed the buffer. *)
Lemma capture_loop_first (fuel : nat) (start timeout_s : Z) :
  forall (out : list str) (p : Popen),
    start <= now p ->
    match capture_loop fuel start timeout_s out p with
    | (Ret text, p') =>
        exists consumed,
          stdout p = consumed ++ stdout p'
          /\ text = join out ++ join (fragments consumed)
          /\ finishes_in (join out) (removelast consumed) = false
    | _ => True
    end.
Proof.
  induction fuel as [|fuel IH]; intros out p Hstart; [exact I|].
  destruct (Z.ltb_spec (now p - start) timeout_s) as [Hc|Hc].
  2:{ rewrite capture_loop_timeout by assumption. cbv beta iota.
      exists []. cbn. rewrite app_nil_r. auto. }
  destruct (read_line_inv timeout_s p ltac:(lia)) as (r & p1 & Hr & Hnow & _ & Hout).
  destruct r as [l|].
  - destruct Hout as (t & Hout).
    rewrite (capture_loop_line _ _ _ _ _ _ _ Hc Hr).
    pose proof (fragment_of_classify l) as Hfl.
    destruct (classify l) as [|x|] eqn:Hcl; [| |exact I].
    + specialize (IH out p1 ltac:(lia)).
      destruct (capture_loop fuel start timeout_s out p1) as [[text|e|] p']; auto.
      destruct IH as (consumed & Hc1 & Ht & Hf).
      exists ((t, l) :: consumed). rewrite Hout, Hc1, fragments_cons, Hfl.
      repeat split; auto.
      destruct consumed as [|tl consumed]; [reflexivity|].
      change (removelast ((t, l) :: tl :: consumed))
        with ((t, l) :: removelast (tl :: consumed)).
      cbn [finishes_in]. rewrite Hfl. exact Hf.
    + destruct (looks_finished (join (out ++ [x]))) eqn:Hlf.
      * cbv beta iota. exists [(t, l)]. rewrite fragments_cons, Hfl. cbn.
        rewrite app_nil_r. repeat split; auto. apply join_snoc.
      * specialize (IH (out ++ [x]) p1 ltac:(lia)).
        destruct (capture_loop fuel start timeout_s (out ++ [x]) p1)
          as [[text|e|] p']; auto.
        destruct IH as (consumed & Hc1 & Ht & Hf).
        exists ((t, l) :: consumed). rewrite Hout, Hc1, fragments_cons, Hfl.
        rewrite join_snoc in *.
        split; [reflexivity|].
        split; [rewrite Ht; unfold join; cbn [app concat];
                rewrite app_assoc; reflexivity|].
        destruct consumed as [|tl consumed]; [reflexivity|].
        change (removelast ((t, l) :: tl :: consumed))
          with ((t, l) :: removelast (tl :: consumed)).
        cbn [finishes_in]. rewrite Hfl, Hlf. exact Hf.
  - rewrite (capture_loop_no_line _ _ _ _ _ _ Hc Hr).
    destruct (exited (set_now (now p1 + 1) p1)).
    + cbv beta iota. exists []. cbn. rewrite app_nil_r. auto.
    + specialize (IH out (set_now (now p1 + 1) p1) ltac:(simpl_proc; lia)).
      destruct (capture_loop fuel start timeout_s out (set_now (now p1 + 1) p1))
        as [[text|e|] p']; auto.
      simpl_proc. rewrite Hout in IH. exact IH.
Qed.

(** X5.  A capture stops at the first fragment that makes the buffer look
    finished: of the lines it has read, none but the last one carried a
    fragment after which the buffer ended with '.', '!' or '?' (white
    space apart) or contained a line feed. *)
Theorem capture_stops_at_first_completion (timeout_s : Z) (p : Popen) :
  match capture_assistant_text timeout_s p with
  | (Ret text, p') =>
      exists consumed,
        stdout p = consumed ++ stdout p'
        /\ text = join (fragments consumed)
        /\ finishes_in [] (removelast consumed) = false
  | _ => True
  end.
Proof.
  unfold capture_assistant_text, bind, time_time.
  apply (capture_loop_first (S (Z.to_nat timeout_s)) (now p) timeout_s [] p). lia.
Qed.





Example fragment_before_the_response_is_lost :
  fst ((_ <- wait_for_response (lit "2") 10 ;; capture_assistant_text 40)
         (child [ (1, Json (text_delta (lit "O")));
                  (2, Json (response_to (lit "2")));
                  (3, Json (text_delta (lit "K."))) ] None))
  = Ret (lit "K.").
Proof. vm_compute. reflexivity. Qed.

(** ** [read_line] and [stop_proc]: how long they take *)



(** X9.  [stop_proc] takes three seconds at most, and reads nothing of
    what the child wrote. *)
Theorem stop_proc_within_grace (p : Popen) :
  now p <= now (snd (stop_proc p)) <= now p + 3 * SECOND
  /\ stdout (snd (stop_proc p)) = stdout p.
Proof.
  destruct p as [n out ex rc sd cl buf sent].
  unfold stop_proc, stdin_close, terminate, wait, kill, exited, earliest, SECOND.
  unfold_m. cbn.
  destruct cl; destruct buf as [|c buf]; destruct ex as [e|]; destruct sd as [d|]; cbn;
    repeat match goal with
      | |- context [if ?c then _ else _] => destruct c eqn:?; cbn
      end;
    repeat match goal with
      | H : (_ <=? _) = true |- _ => apply Z.leb_le in H
      | H : (_ <=? _) = false |- _ => apply Z.leb_gt in H
      end;
    split; try reflexivity; lia.
Qed.

(** X10.  A child that is running and exits within the three seconds
    after SIGTERM is not killed: [stop_proc] comes back at the instant the
    child exits, which is the one SIGTERM led to, or the one at which the
    child was to exit by itself if that is earlier. *)
Theorem stop_proc_graceful (p : Popen) (d : Z) :
  exited p = false ->
  sigterm_delay p = Some d ->
  0 <= d <= 3 * SECOND ->
  exit_at (snd (stop_proc p)) = Some (earliest (now p + d) (exit_at p))
  /\ now (snd (stop_proc p)) = earliest (now p + d) (exit_at p).
Proof.
  destruct p as [n out ex rc sd cl buf sent]. cbn [exited sigterm_delay exit_at now].
  intros Hal Hsd Hd. subst sd.
  unfold stop_proc, stdin_close, terminate, wait, kill, exited, earliest, SECOND in *.
  unfold_m. cbn in Hal |- *.
  destruct cl; destruct buf as [|c buf]; destruct ex as [e|]; cbn;
    rewrite ?Hal; cbn;
    repeat match goal with
      | |- context [if ?c then _ else _] => destruct c eqn:?; cbn
      end;
    repeat match goal with
      | H : (_ <=? _) = true |- _ => apply Z.leb_le in H
      | H : (_ <=? _) = false |- _ => apply Z.leb_gt in H
      end;
    try (split; [f_equal|]; lia); try lia.
Qed.

Lemma stop_proc_graceful_witness :
  exit_at (snd (stop_proc (child [] None)))
  = Some (earliest (now (child [] None) + 50) (exit_at (child [] None)))
  /\ now (snd (stop_proc (child [] None)))
     = earliest (now (child [] None) + 50) (exit_at (child [] None)).
Proof.
  apply (stop_proc_graceful (child [] None) 50);
    [reflexivity | reflexivity | unfold SECOND; lia].
Defined.

(** ** The two turns of [main] *)

(** *** Computations that come back *)













(** *** Computations that leave the standard input alone *)

Lemma reads_only_ret {A : Type} (a : A) : reads_only (ret a).
Proof. intros p. cbn. repeat split. lia. Qed.

Lemma reads_only_raise {A : Type} (e : exn) : reads_only (@raise A e).
Proof. intros p. cbn. repeat split. lia. Qed.

Lemma reads_only_hang {A : Type} : reads_only (@hang A).
Proof. intros p. cbn. repeat split. lia. Qed.

Lemma reads_only_bind {A B : Type} (m : M A) (k : A -> M B) :
  reads_only m -> (forall a, reads_only (k a)) -> reads_only (bind m k).
Proof.
  intros Hm Hk p. unfold bind. destruct (Hm p) as (H1 & H2 & H3).
  destruct (m p) as [[a|e|] p1]; cbn [snd] in *; auto.
  destruct (Hk a p1) as (K1 & K2 & K3).
  repeat split; [congruence|congruence|lia].
Qed.

Lemma reads_only_time_time : reads_only time_time.
Proof. intros p. cbn. repeat split. lia. Qed.

Lemma reads_only_py_get (v : pyval) (k : str) : reads_only (py_get v k).
Proof.
  destruct v; cbn [py_get]; try apply reads_only_raise.
  destruct (lookup items k); apply reads_only_ret.
Qed.

Lemma reads_only_poll : reads_only poll.
Proof.
  intros p. unfold poll, stdin_state. cbn [snd]. simpl_proc.
  repeat split. lia.
Qed.

Lemma reads_only_select_stdout (timeout_s : Z) : reads_only (select_stdout timeout_s).
Proof.
  intros p. unfold select_stdout, stdin_state.
  destruct (timeout_s <? 0) eqn:Ht; [cbn; repeat split; lia|].
  apply Z.ltb_ge in Ht.
  destruct (readable_at p) as [t|]; [destruct (t <=? now p + timeout_s)|];
    cbn [snd]; simpl_proc; repeat split; lia.
Qed.

Lemma reads_only_readline : reads_only readline.
Proof.
  intros p. unfold readline, stdin_state.
  destruct (stdout p) as [|[t l] rest]; [destruct (exit_at p) as [e|] eqn:He|];
    cbn [snd]; simpl_proc; repeat split; solve [assumption | lia].
Qed.

Ltac reads_only_step IH :=
  first
    [ apply IH
    | apply reads_only_ret
    | apply reads_only_raise
    | apply reads_only_hang
    | apply reads_only_time_time
    | apply reads_only_py_get
    | apply reads_only_poll
    | apply reads_only_select_stdout
    | apply reads_only_readline
    | apply reads_only_bind; [|intros ?]
    | match goal with
      | |- reads_only (if ?c then _ else _) => destruct c
      | |- reads_only (match ?x with _ => _ end) => destruct x
      end ].

Lemma reads_only_read_line (timeout_s : Z) : reads_only (read_line timeout_s).
Proof. unfold read_line. repeat reads_only_step reads_only_poll. Qed.

Lemma reads_only_is_response_to (msg : pyval) (target_id : str) :
  reads_only (is_response_to msg target_id).
Proof. unfold is_response_to, and_then. repeat reads_only_step reads_only_poll. Qed.

Lemma reads_only_is_orphan_error (msg : pyval) : reads_only (is_orphan_error msg).
Proof. unfold is_orphan_error, and_then. repeat reads_only_step reads_only_poll. Qed.

Lemma reads_only_wait_loop (fuel : nat) (start : Z) (target_id : str) (timeout_s : Z) :
  reads_only (wait_loop fuel start target_id timeout_s).
Proof.
  induction fuel as [|fuel IH]; cbn [wait_loop]; [apply reads_only_hang|].
  repeat first
    [ apply reads_only_read_line
    | apply reads_only_is_response_to
    | apply reads_only_is_orphan_error
    | reads_only_step IH ].
Qed.

Lemma reads_only_capture_loop (fuel : nat) (start : Z) (timeout_s : Z) (out : list str) :
  reads_only (capture_loop fuel start timeout_s out).
Proof.
  revert out.
  induction fuel as [|fuel IH]; intros out; cbn [capture_loop]; [apply reads_only_hang|].
  cbv zeta.
  repeat first [ apply reads_only_read_line | reads_only_step IH ].
Qed.

Lemma reads_only_wait_for_response (target_id : str) (timeout_s : Z) :
  reads_only (wait_for_response target_id timeout_s).
Proof.
  unfold wait_for_response.
  apply reads_only_bind; [apply reads_only_time_time|intros start].
  apply reads_only_wait_loop.
Qed.

Lemma reads_only_capture_assistant_text (timeout_s : Z) :
  reads_only (capture_assistant_text timeout_s).
Proof.
  unfold capture_assistant_text.
  apply reads_only_bind; [apply reads_only_time_time|intros start].
  apply reads_only_capture_loop.
Qed.

(** *** [str.strip] *)

Lemma lstrip_head (s : str) :
  match lstrip s with
  | [] => True
  | c :: _ => isspace c = false
  end.
Proof.
  induction s as [|c s IH]; cbn [lstrip]; [exact I|].
  destruct (isspace c) eqn:Hc; [exact IH|exact Hc].
Qed.

Lemma lstrip_snoc (u : str) (c : char) :
  isspace c = false -> exists v, lstrip (u ++ [c]) = v ++ [c].
Proof.
  intros Hc. induction u as [|d u IH]; cbn [app lstrip].
  - rewrite Hc. exists []. reflexivity.
  - destruct (isspace d); [exact IH|]. exists (d :: u). reflexivity.
Qed.

Lemma lstrip_idempotent (s : str) : lstrip (lstrip s) = lstrip s.
Proof.
  pose proof (lstrip_head s) as H.
  destruct (lstrip s) as [|c t]; [reflexivity|].
  cbn [lstrip]. rewrite H. reflexivity.
Qed.

Lemma rstrip_idempotent (s : str) : rstrip (rstrip s) = rstrip s.
Proof.
  unfold rstrip. rewrite rev_involutive, lstrip_idempotent. reflexivity.
Qed.

Lemma strip_idempotent (s : str) : strip (strip s) = strip s.
Proof.
  unfold strip.
  pose proof (lstrip_head s) as H.
  destruct (lstrip s) as [|c t]; [reflexivity|].
  assert (E : lstrip (rstrip (c :: t)) = rstrip (c :: t)).
  { unfold rstrip. cbn [rev].
    destruct (lstrip_snoc (rev t) c H) as (v & ->).
    rewrite rev_app_distr. cbn [rev app lstrip]. rewrite H. reflexivity. }
  rewrite E. apply rstrip_idempotent.
Qed.

(** *** The lines the child receives *)

Lemma sent_lines_snoc (rs : list pyval) (r : pyval) :
  sent_lines (rs ++ [r]) = sent_lines rs ++ dumps r ++ [LF].
Proof.
  unfold sent_lines. rewrite map_app, concat_app. cbn [List.map concat].
  rewrite app_nil_r. reflexivity.
Qed.

Lemma split_lines_from_line (current s rest : str) :
  Forall (fun c => (32 <= c)%N) s ->
  split_lines_from current (s ++ LF :: rest)
  = (rev current ++ s) :: split_lines_from [] rest.
Proof.
  intros H. revert current.
  induction H as [|c s Hc Hs IH]; intros current; cbn [app split_lines_from].
  - rewrite N.eqb_refl, app_nil_r. reflexivity.
  - replace (c =? LF)%N with false
      by (symmetry; apply N.eqb_neq; unfold LF; lia).
    rewrite IH. cbn [rev]. rewrite <- app_assoc. reflexivity.
Qed.

(** The requests written with [write_req] reach the child one per line,
    and each line decodes to its request. *)
Lemma lines_of_sent_lines (rs : list pyval) :
  List.map json_loads (split_lines (sent_lines rs)) = List.map Some rs.
Proof.
  unfold split_lines, sent_lines.
  induction rs as [|r rs IH]; [reflexivity|].
  cbn [List.map concat]. rewrite <- app_assoc. cbn [app].
  rewrite split_lines_from_line by apply dumps_printable.
  cbn [rev app List.map]. rewrite json_loads_dumps, IH. reflexivity.
Qed.

(** *** Reasoning on what a computation leaves behind *)

Lemma triple_ret {A : Type} (P : Popen -> Prop) (a : A) (Q : A -> Popen -> Prop) :
  (forall p, P p -> Q a p) -> triple P (ret a) Q.
Proof. intros H p HP. cbn. auto. Qed.

Lemma triple_bind {A B : Type} (P : Popen -> Prop) (m : M A)
  (Q : A -> Popen -> Prop) (k : A -> M B) (R : B -> Popen -> Prop) :
  triple P m Q -> (forall a, triple (Q a) (k a) R) -> triple P (bind m k) R.
Proof.
  intros Hm Hk p HP. unfold bind. specialize (Hm p HP).
  destruct (m p) as [[a|e|] p1]; auto.
  apply (Hk a p1 Hm).
Qed.

Lemma triple_reads_only {A : Type} (m : M A) (s : bool * str * str) :
  reads_only m ->
  triple (fun p => stdin_state p = s) m (fun _ p => stdin_state p = s).
Proof.
  intros Hm p HP. destruct (Hm p) as (H & _).
  destruct (m p) as [[a|e|] p1]; auto. cbn [snd] in H. congruence.
Qed.

Lemma triple_write_req (rs : list pyval) (r : pyval) :
  triple (fun p => stdin_state p = (false, [], sent_lines rs))
         (write_req r)
         (fun _ p => stdin_state p = (false, [], sent_lines (rs ++ [r]))).
Proof.
  intros p HP. unfold stdin_state in HP. injection HP as Hc Hb Hs.
  rewrite sent_lines_snoc.
  unfold write_req, stdin_write, stdin_flush, bind. rewrite Hc.
  cbn [stdin_closed set_stdin stdin_buffer stdin_sent]. rewrite Hb, Hs.
  cbn [app].
  destruct (dumps r ++ [LF]) as [|c t] eqn:E.
  - apply app_eq_nil in E. destruct E as [_ E]. discriminate.
  - destruct (exited _); [exact I|]. reflexivity.
Qed.

(** The two expressions that take a response apart leave the process as
    it is. *)
Lemma session_id_of_inv (r1 : pyval) (p : Popen) :
  match session_id_of r1 p with
  | (Ret sid, p') => p' = p /\ strip sid = sid
  | (Raise e, p') => p' = p /\ e = AttributeError
  | (Hang, _) => False
  end.
Proof.
  unfold session_id_of, bind, ret, py_or.
  destruct r1 as [|b|z|s|l|items]; cbn -[lit strip py_str py_truthy]; auto.
  destruct (lookup items (lit "result")) as [res|]; cbn -[lit strip py_str py_truthy].
  - destruct (py_truthy res) eqn:Ht.
    + destruct res as [|b|z|s|l|d]; cbn -[lit strip py_str py_truthy]; auto.
      destruct (lookup d (lit "sessionId")); cbn -[lit strip py_str py_truthy];
        split; auto; apply strip_idempotent.
    + cbn -[lit strip py_str py_truthy]. split; auto.
  - split; auto.
Qed.

Lemma load_outcome_inv (rload : pyval) (p : Popen) :
  match load_outcome rload p with
  | (Ret (ok, err), p') =>
      p' = p
      /\ ok = negb (py_truthy (field rload (lit "error")))
      /\ (if ok then err = [] else err <> [] /\ strip err = err)
  | (Raise e, p') =>
      p' = p /\ e = AttributeError
      /\ (is_dict rload = false
          \/ py_truthy (field rload (lit "error")) = true
             /\ is_dict (field rload (lit "error")) = false)
  | (Hang, _) => False
  end.
Proof.
  assert (K : forall m : pyval,
             let s := strip (py_str (if py_truthy m then m else PStr [])) in
             match s with [] => lit "unknown" | _ :: _ => s end <> []
             /\ strip match s with [] => lit "unknown" | _ :: _ => s end
                = match s with [] => lit "unknown" | _ :: _ => s end).
  { intros m s.
    pose proof (strip_idempotent (py_str (if py_truthy m then m else PStr []))) as Hi.
    fold s in Hi. destruct s as [|c s'].
    - split; [discriminate|reflexivity].
    - split; [discriminate|exact Hi]. }
  unfold load_outcome, bind, ret, py_or.
  destruct rload as [|b|z|s|l|items]; cbn -[lit strip py_str py_truthy]; auto.
  destruct (lookup items (lit "error")) as [err|];
    cbn -[lit strip py_str py_truthy]; [|cbn; auto].
  destruct (py_truthy err) eqn:Ht; cbn -[lit strip py_str py_truthy]; [|auto].
  rewrite ?Ht.
  destruct err as [|b|z|s|l|d]; cbn -[lit strip py_str py_truthy]; auto.
  destruct (lookup d (lit "message")) as [m|];
    cbn -[lit strip py_str py_truthy];
    (split; [reflexivity|split; [reflexivity|apply K]]).
Qed.

Lemma triple_assume {A : Type} (P : Popen -> Prop) (F : Prop) (m : M A)
  (Q : A -> Popen -> Prop) :
  (F -> triple P m Q) -> triple (fun p => P p /\ F) m Q.
Proof. intros H p (HP & HF). apply (H HF p HP). Qed.

(** [stop_proc] sends nothing when nothing waits in the buffer. *)
Lemma stop_proc_sent (p : Popen) :
  stdin_buffer p = [] ->
  stdin_sent (snd (stop_proc p)) = stdin_sent p.
Proof.
  destruct p as [n out ex rc sd cl buf sent]. cbn [stdin_buffer]. intros ->.
  unfold stop_proc, stdin_close, terminate, wait, kill, exited, earliest, SECOND.
  unfold_m. cbn.
  destruct cl; destruct ex as [e|]; destruct sd as [d|]; cbn;
    repeat match goal with
      | |- context [if ?c then _ else _] => destruct c eqn:?; cbn
      end;
    reflexivity.
Qed.

Lemma triple_finally_stop {A : Type} (P : Popen -> Prop) (body : M A)
  (Q : A -> str -> Prop) :
  triple P body (fun a p => stdin_buffer p = [] /\ Q a (stdin_sent p)) ->
  triple P (try_finally body stop_proc) (fun a p => Q a (stdin_sent p)).
Proof.
  intros H p HP. specialize (H p HP). unfold try_finally.
  destruct (body p) as [[a|e|] p1]; [| |exact I].
  - destruct H as (Hb & HQ).
    pose proof (stop_proc_sent p1 Hb) as Hs.
    destruct (stop_proc_kills p1) as (p2 & E & _).
    rewrite E in *. cbn [snd] in Hs. rewrite Hs. exact HQ.
  - destruct (stop_proc_kills p1) as (p2 & E & _). rewrite E. exact I.
Qed.

Lemma triple_session_id_of (r1 : pyval) (s : bool * str * str) :
  triple (fun p => stdin_state p = s) (session_id_of r1)
         (fun sid p => stdin_state p = s /\ strip sid = sid).
Proof.
  intros p HP. pose proof (session_id_of_inv r1 p) as H.
  destruct (session_id_of r1 p) as [[sid|e|] p']; auto.
  destruct H as (-> & Hs). auto.
Qed.

Lemma triple_load_outcome (rload : pyval) (s : bool * str * str) :
  triple (fun p => stdin_state p = s) (load_outcome rload)
         (fun lo p => stdin_state p = s
                      /\ if fst lo then snd lo = []
                         else snd lo <> [] /\ strip (snd lo) = snd lo).
Proof.
  intros p HP. pose proof (load_outcome_inv rload p) as H.
  destruct (load_outcome rload p) as [[[ok err]|e|] p']; auto.
  destruct H as (-> & _ & H). auto.
Qed.

(** X12.  What the child of the first turn has received when the turn is
    over, read line by line and decoded: the request
    [droid.initialize_session] alone when the turn ends on the missing
    session identifier, and that request followed by the request
    [droid.add_user_message] with the token when the turn gives its
    result; the session identifier it gives is then not empty and has no
    blank at either end. *)
Theorem turn1_requests (cwd model token : str) (p : Popen) :
  stdin_state p = (false, [], []) ->
  match turn1 cwd model token p with
  | (Ret (inl _), p') =>
      List.map json_loads (split_lines (stdin_sent p'))
      = [Some (initialize_session_request cwd model)]
  | (Ret (inr (sid1, _)), p') =>
      sid1 <> [] /\ strip sid1 = sid1
      /\ List.map json_loads (split_lines (stdin_sent p'))
         = [Some (initialize_session_request cwd model);
            Some (add_user_message_request (lit "2") (remember_text token))]
  | _ => True
  end.
Proof.
  intros H.
  set (init := initialize_session_request cwd model).
  set (add := add_user_message_request (lit "2") (remember_text token)).
  assert (T : triple (fun p => stdin_state p = (false, [], sent_lines []))
                (turn1 cwd model token)
                (fun o p =>
                   match o with
                   | inl _ => stdin_sent p = sent_lines [init]
                   | inr (sid1, _) =>
                       sid1 <> [] /\ strip sid1 = sid1
                       /\ stdin_sent p = sent_lines [init; add]
                   end)).
  { unfold turn1.
    apply (triple_finally_stop _ _
             (fun o s => match o with
                         | inl _ => s = sent_lines [init]
                         | inr (sid1, _) =>
                             sid1 <> [] /\ strip sid1 = sid1
                             /\ s = sent_lines [init; add]
                         end)).
    eapply triple_bind; [apply (triple_write_req [] init)|intros ?u; cbv beta].
    cbn [app].
    eapply triple_bind;
      [apply triple_reads_only, reads_only_wait_for_response|intros r1; cbv beta].
    eapply triple_bind; [apply triple_session_id_of|intros sid1; cbv beta].
    apply triple_assume. intros Hs.
    destruct sid1 as [|c sid1].
    - apply triple_ret. intros q Hq. unfold stdin_state in Hq.
      injection Hq as _ Hb Hq. auto.
    - eapply triple_bind; [apply (triple_write_req [init] add)|intros ?u; cbv beta].
      cbn [app].
      eapply triple_bind;
        [apply triple_reads_only, reads_only_wait_for_response|intros ?u; cbv beta].
      eapply triple_bind;
        [apply triple_reads_only, reads_only_capture_assistant_text|intros a1; cbv beta].
      apply triple_ret. intros q Hq. unfold stdin_state in Hq.
      injection Hq as _ Hb Hq. repeat split; auto. discriminate. }
  specialize (T p H).
  destruct (turn1 cwd model token p) as [[[msg|[sid1 a1]]|e|] p']; auto.
  - rewrite T. apply (lines_of_sent_lines [init]).
  - destruct T as (Hn & Hs & Hq). rewrite Hq. repeat split; auto.
    apply (lines_of_sent_lines [init; add]).
Qed.

Lemma turn1_requests_witness :
  fst (turn1 (lit "/repo") (lit "m") (lit "T-1") child_of_turn1)
  = Ret (inr (lit "s-1", lit "OK."))
  /\ List.map json_loads
       (split_lines
          (stdin_sent (snd (turn1 (lit "/repo") (lit "m") (lit "T-1") child_of_turn1))))
     = [Some (initialize_session_request (lit "/repo") (lit "m"));
        Some (add_user_message_request (lit "2") (remember_text (lit "T-1")))].
Proof.
  pose proof (turn1_requests (lit "/repo") (lit "m") (lit "T-1") child_of_turn1
                eq_refl) as H.
  assert (E : fst (turn1 (lit "/repo") (lit "m") (lit "T-1") child_of_turn1)
              = Ret (inr (lit "s-1", lit "OK.")))
    by (vm_compute; reflexivity).
  destruct (turn1 (lit "/repo") (lit "m") (lit "T-1") child_of_turn1) as [r p'].
  cbn [fst snd] in *. subst r.
  split; [reflexivity|]. destruct H as (_ & _ & H). exact H.
Defined.

(** X13.  What [main] makes of the response to [droid.load_session],
    which leaves the process as it is: the load counts as done exactly
    when the response has no field [error] or a falsy one (null, an empty
    object, an empty string, zero); otherwise the reported message is not
    empty -- ['unknown'] stands for a missing or blank one -- and has no
    blank at either end.  The only exception is [AttributeError], for a
    response that is not an object or whose truthy [error] is not an
    object. *)
Theorem load_outcome_cases (rload : pyval) (p : Popen) :
  match load_outcome rload p with
  | (Ret (ok, err), p') =>
      p' = p
      /\ ok = negb (py_truthy (field rload (lit "error")))
      /\ (if ok then err = [] else err <> [] /\ strip err = err)
  | (Raise e, p') =>
      p' = p /\ e = AttributeError
      /\ (is_dict rload = false
          \/ py_truthy (field rload (lit "error")) = true
             /\ is_dict (field rload (lit "error")) = false)
  | (Hang, _) => False
  end.
Proof. exact (load_outcome_inv rload p). Qed.

(** X14.  What the child of the second turn has received when the turn
    gives its result, read line by line and decoded:
    [droid.initialize_session], [droid.load_session] with the session
    identifier of the first turn, and the question -- which is asked
    whether or not the session was loaded.  A failed load comes with a
    message that is not empty, a successful one with the empty message. *)
Theorem turn2_requests (cwd model sid1 : str) (p : Popen) :
  stdin_state p = (false, [], []) ->
  match turn2 cwd model sid1 p with
  | (Ret (load_ok, load_err, _), p') =>
      List.map json_loads (split_lines (stdin_sent p'))
      = [Some (initialize_session_request cwd model);
         Some (load_session_request sid1);
         Some (add_user_message_request (lit "3") question_text)]
      /\ (if load_ok then load_err = []
          else load_err <> [] /\ strip load_err = load_err)
  | _ => True
  end.
Proof.
  intros H.
  set (init := initialize_session_request cwd model).
  set (load := load_session_request sid1).
  set (add := add_user_message_request (lit "3") question_text).
  assert (T : triple (fun p => stdin_state p = (false, [], sent_lines []))
                (turn2 cwd model sid1)
                (fun o p =>
                   stdin_sent p = sent_lines [init; load; add]
                   /\ if fst (fst o) then snd (fst o) = []
                      else snd (fst o) <> []
                           /\ strip (snd (fst o)) = snd (fst o))).
  { unfold turn2.
    apply (triple_finally_stop _ _
             (fun (o : bool * str * str) s => s = sent_lines [init; load; add]
                         /\ if fst (fst o) then snd (fst o) = []
                            else snd (fst o) <> []
                                 /\ strip (snd (fst o)) = snd (fst o))).
    eapply triple_bind; [apply (triple_write_req [] init)|intros ?u; cbv beta].
    cbn [app].
    eapply triple_bind;
      [apply triple_reads_only, reads_only_wait_for_response|intros ?u; cbv beta].
    eapply triple_bind; [apply (triple_write_req [init] load)|intros ?u; cbv beta].
    cbn [app].
    eapply triple_bind;
      [apply triple_reads_only, reads_only_wait_for_response|intros rload; cbv beta].
    eapply triple_bind; [apply triple_load_outcome|intros lo; cbv beta].
    apply triple_assume. intros Hlo.
    eapply triple_bind; [apply (triple_write_req [init; load] add)|intros ?u; cbv beta].
    cbn [app].
    eapply triple_bind;
      [apply triple_reads_only, reads_only_wait_for_response|intros ?u; cbv beta].
    eapply triple_bind;
      [apply triple_reads_only, reads_only_capture_assistant_text|intros a2; cbv beta].
    apply triple_ret. intros q Hq. unfold stdin_state in Hq.
    injection Hq as _ Hb Hq. cbn [fst snd]. auto. }
  specialize (T p H).
  destruct (turn2 cwd model sid1 p) as [[[[ok err] a2]|e|] p']; auto.
  cbn [fst snd] in T. destruct T as (Hq & T). rewrite Hq. split; [|exact T].
  apply (lines_of_sent_lines [init; load; add]).
Qed.

Lemma turn2_requests_witness :
  fst (turn2 (lit "/repo") (lit "m") (lit "s-1") child_of_turn2)
  = Ret (false, lit "no such session", lit "I do not know.")
  /\ List.map json_loads
       (split_lines
          (stdin_sent (snd (turn2 (lit "/repo") (lit "m") (lit "s-1") child_of_turn2))))
     = [Some (initialize_session_request (lit "/repo") (lit "m"));
        Some (load_session_request (lit "s-1"));
        Some (add_user_message_request (lit "3") question_text)].
Proof.
  pose proof (turn2_requests (lit "/repo") (lit "m") (lit "s-1") child_of_turn2
                eq_refl) as H.
  assert (E : fst (turn2 (lit "/repo") (lit "m") (lit "s-1") child_of_turn2)
              = Ret (false, lit "no such session", lit "I do not know."))
    by (vm_compute; reflexivity).
  destruct (turn2 (lit "/repo") (lit "m") (lit "s-1") child_of_turn2) as [r p'].
  cbn [fst snd] in *. subst r.
  split; [reflexivity|]. destruct H as (H & _). exact H.
Defined.

(** *** How long a turn takes *)










